(** * Frame assembly of the streaming reader (stream_reader.go)

    A shallow embedding of [streamReader]: the line source ([bufio.Reader]),
    the per-line classification of [processLines], the pull operations
    [RecvRaw] and [Recv], and [IsComplete].  Go's [[]byte] is a [list byte],
    [uint] is an [N] with its 64-bit wrap-around written out, and each pull
    takes the stream and gives back the stream it leaves behind.  The
    unmarshaler is a parameter.  The earlier reader that the repository
    keeps beside this one is modelled in [Legacy]. *)

From Stdlib Require Import String Strings.Byte.
From Stdlib Require Import List Bool Arith NArith Lia.
Import ListNotations.

(** ** Byte slices and the functions of package [bytes] that the reader uses *)

Definition bytes := list byte.

Definition B (s : string) : bytes := list_byte_of_string s.

(** The bytes of [s] between double quotes. *)
Definition quoted (s : string) : bytes := [x22] ++ B s ++ [x22].

Definition nl : byte := x0a.
Definition cr : byte := x0d.

Fixpoint bytes_eqb (a b : bytes) : bool :=
  match a, b with
  | [], [] => true
  | x :: a', y :: b' => Byte.eqb x y && bytes_eqb a' b'
  | _, _ => false
  end.

Fixpoint mem (c : byte) (cutset : bytes) : bool :=
  match cutset with
  | [] => false
  | x :: r => Byte.eqb c x || mem c r
  end.

(** [bytes.HasPrefix] *)
Fixpoint HasPrefix (s prefix : bytes) {struct prefix} : bool :=
  match prefix, s with
  | [], _ => true
  | p :: prefix', c :: s' => Byte.eqb c p && HasPrefix s' prefix'
  | _ :: _, [] => false
  end.

(** [bytes.TrimPrefix] *)
Definition TrimPrefix (s prefix : bytes) : bytes :=
  if HasPrefix s prefix then skipn (length prefix) s else s.

(** [bytes.Contains] *)
Fixpoint Contains (s subslice : bytes) : bool :=
  HasPrefix s subslice ||
  match s with
  | [] => false
  | _ :: s' => Contains s' subslice
  end.

(** [bytes.TrimRight] for a cutset of ASCII bytes: the longest suffix made of
    bytes of the cutset is removed. *)
Fixpoint TrimRight (s cutset : bytes) : bytes :=
  match s with
  | [] => []
  | c :: s' =>
      match TrimRight s' cutset with
      | [] => if mem c cutset then [] else [c]
      | t => c :: t
      end
  end.

(** The scan of [ReadBytes]: the bytes up to and including the first [delim],
    and what follows it; [None] when [delim] does not occur. *)
Fixpoint cut_at (delim : byte) (s : bytes) : option (bytes * bytes) :=
  match s with
  | [] => None
  | c :: s' =>
      if Byte.eqb c delim then Some ([c], s')
      else match cut_at delim s' with
           | Some (line, rest) => Some (c :: line, rest)
           | None => None
           end
  end.

(** The literals of the source. *)
Definition lit_data : bytes := Eval cbv in B "data: ".
Definition lit_error : bytes := Eval cbv in B "error: ".
Definition lit_DONE : bytes := Eval cbv in B "[DONE]".
Definition lit_done : bytes := Eval cbv in B "done".
Definition lit_crlf : bytes := [cr; nl].
Definition lit_error_key : bytes := Eval cbv in quoted "error" ++ B ":".
Definition lit_choices : bytes := Eval cbv in quoted "choices".
Definition lit_brace : bytes := Eval cbv in B "{".

(** ** Errors *)

(** Modelled from the spec: the structured error value
    [{ message: string, type?: string, code?: string|number }]; the Go type
    [APIError] is declared outside the files at hand. *)
Record APIError := {
  Message : string;
  Type_ : option string;
  Code : option string
}.

(** [ErrorResponse] holds a pointer to an [APIError], nil when absent. *)
Record ErrorResponse := { Error : option APIError }.

(** Go [error] values.  [APIErrorPtr e] is a [*APIError] stored in an
    [error] interface: the interface is not nil even when the pointer is.
    [Wrapf] is an error that wraps another one ([%w]). *)
Inductive error : Type :=
| io_EOF
| io_ErrUnexpectedEOF
| ErrTooManyEmptyStreamMessages
| APIErrorPtr (e : option APIError)
| errors_New (msg : string)
| Wrapf (msg : string) (inner : error).

(** [errors.Is] against the two sentinels of package [io]. *)
Inductive sentinel := S_EOF | S_ErrUnexpectedEOF.

Fixpoint errors_Is (err : error) (target : sentinel) : bool :=
  match err, target with
  | io_EOF, S_EOF => true
  | io_ErrUnexpectedEOF, S_ErrUnexpectedEOF => true
  | Wrapf _ inner, _ => errors_Is inner target
  | _, _ => false
  end.

(** ** The line source *)

(** A [bufio.Reader] over the response body: the bytes not yet consumed, the
    error the body reports once they are used up ([io.EOF] for a clean
    close), and the number of [ReadBytes] calls made so far. *)
Record Reader := {
  pending : bytes;
  srcErr : error;
  reads : nat
}.

(** [ReadBytes('\n')]: the next line with its delimiter, or, when no
    delimiter is left, the remaining bytes together with the source's error;
    later calls then give no bytes and the same error. *)
Definition ReadBytes (r : Reader) : bytes * option error * Reader :=
  match cut_at nl (pending r) with
  | Some (line, rest) =>
      (line, None, {| pending := rest; srcErr := srcErr r; reads := S (reads r) |})
  | None =>
      (pending r, Some (srcErr r),
       {| pending := []; srcErr := srcErr r; reads := S (reads r) |})
  end.

(** ** The stream *)

(** Modelled from the spec: the error accumulator ([utils.ErrorAccumulator],
    declared outside the files at hand) is a byte buffer: [Write] appends,
    without failing, and [Bytes] gives what was written, nil while nothing
    was. *)
Definition ErrorAccumulator := bytes.

Record streamReader := {
  emptyMessagesLimit : N;
  isFinished : bool;
  receivedDone : bool;
  reader : Reader;
  errAccumulator : ErrorAccumulator;
  dataBuffer : option bytes   (* *bytes.Buffer, nil until the first pull *)
}.

Definition uint_max : N := 2 ^ 64.

Definition set_reader (s : streamReader) (r : Reader) : streamReader :=
  {| emptyMessagesLimit := emptyMessagesLimit s; isFinished := isFinished s;
     receivedDone := receivedDone s; reader := r;
     errAccumulator := errAccumulator s; dataBuffer := dataBuffer s |}.

Definition set_isFinished (s : streamReader) (b : bool) : streamReader :=
  {| emptyMessagesLimit := emptyMessagesLimit s; isFinished := b;
     receivedDone := receivedDone s; reader := reader s;
     errAccumulator := errAccumulator s; dataBuffer := dataBuffer s |}.

Definition set_receivedDone (s : streamReader) (b : bool) : streamReader :=
  {| emptyMessagesLimit := emptyMessagesLimit s; isFinished := isFinished s;
     receivedDone := b; reader := reader s;
     errAccumulator := errAccumulator s; dataBuffer := dataBuffer s |}.

Definition set_errAccumulator (s : streamReader) (a : ErrorAccumulator) : streamReader :=
  {| emptyMessagesLimit := emptyMessagesLimit s; isFinished := isFinished s;
     receivedDone := receivedDone s; reader := reader s;
     errAccumulator := a; dataBuffer := dataBuffer s |}.

Definition set_dataBuffer (s : streamReader) (d : option bytes) : streamReader :=
  {| emptyMessagesLimit := emptyMessagesLimit s; isFinished := isFinished s;
     receivedDone := receivedDone s; reader := reader s;
     errAccumulator := errAccumulator s; dataBuffer := d |}.

(** The contents of the data buffer.  [processLines] allocates the buffer
    before its loop, so the loop never meets the nil pointer. *)
Definition buffer_Bytes (s : streamReader) : bytes :=
  match dataBuffer s with
  | Some d => d
  | None => []
  end.

Definition buffer_Write (s : streamReader) (p : bytes) : streamReader :=
  set_dataBuffer s (Some (buffer_Bytes s ++ p)).

(** [Reset] empties the buffer and keeps its storage: the slice a pull
    returns from [Bytes] is good until the next pull writes to the buffer,
    and [Recv] decodes it before that.  The model gives each pull the bytes
    as they are when it returns. *)
Definition buffer_Reset (s : streamReader) : streamReader :=
  set_dataBuffer s (Some []).

(** A stream as the client builds it over a response body. *)
Definition newStream (limit : N) (body : bytes) (closeErr : error) : streamReader :=
  {| emptyMessagesLimit := limit; isFinished := false; receivedDone := false;
     reader := {| pending := body; srcErr := closeErr; reads := 0 |};
     errAccumulator := []; dataBuffer := None |}.

(** [IsComplete] *)
Definition IsComplete (s : streamReader) : bool := receivedDone s.

(** What one turn of the loop of [processLines] does: it returns from the
    call, or goes round again with the counter it leaves. *)
Inductive outcome :=
| Return (data : bytes) (err : option error) (s : streamReader)
| Continue (s : streamReader) (emptyMessagesCount : N).

Section Stream.

(** The message type [T] with its zero value, and the pluggable
    unmarshaler.  [Unmarshal] writes into the value it is given and
    reports an error or nil; the reader calls it on three kinds of
    targets. *)
Variable T : Type.
Variable zeroT : T.

Inductive target := ResponseT | ErrorResponseT | ErrorResponsePtrT.

Definition slot (k : target) : Type :=
  match k with
  | ResponseT => T
  | ErrorResponseT => ErrorResponse
  | ErrorResponsePtrT => option ErrorResponse
  end.

Variable Unmarshal : forall k : target, bytes -> slot k -> slot k * option error.

(** [unmarshalError] *)
Definition unmarshalError (stream : streamReader) : option ErrorResponse :=
  let errBytes := errAccumulator stream in
  if Nat.eqb (length errBytes) 0 then None
  else
    let '(errResp, err) := Unmarshal ErrorResponsePtrT errBytes None in
    match err with
    | Some _ => None
    | None => errResp
    end.

(** The error check at an event boundary: the decoded error response when
    the accumulator holds bytes that decode. *)
Definition pendingError (stream : streamReader) : option ErrorResponse :=
  if negb (Nat.eqb (length (errAccumulator stream)) 0)
  then unmarshalError stream
  else None.

(** One turn of the [for] loop of [processLines]. *)
Definition iteration (stream : streamReader) (emptyMessagesCount : N) : outcome :=
  let '(rawLine, readErr, rd) := ReadBytes (reader stream) in
  let stream := set_reader stream rd in
  match readErr with
  | Some io_EOF =>
      if Nat.ltb 0 (length (buffer_Bytes stream))
      then Return (buffer_Bytes stream) None (buffer_Reset stream)
      else Return [] (Some io_EOF) (set_isFinished stream true)
  | Some e => Return [] (Some e) stream
  | None =>
      let line := TrimRight rawLine lit_crlf in
      if Nat.eqb (length line) 0 then
        match pendingError stream with
        | Some respErr => Return [] (Some (APIErrorPtr (Error respErr))) stream
        | None =>
            if Nat.ltb 0 (length (buffer_Bytes stream))
            then Return (buffer_Bytes stream) None (buffer_Reset stream)
            else
              let emptyMessagesCount := ((emptyMessagesCount + 1) mod uint_max)%N in
              if (emptyMessagesLimit stream <? emptyMessagesCount)%N
              then Return [] (Some ErrTooManyEmptyStreamMessages) stream
              else Continue stream emptyMessagesCount
        end
      else if HasPrefix line lit_data then
        let data := TrimPrefix line lit_data in
        if bytes_eqb data lit_DONE || bytes_eqb data lit_done then
          Return [] (Some io_EOF)
                 (set_receivedDone (set_isFinished stream true) true)
        else if bytes_eqb data [] then
          Continue stream emptyMessagesCount
        else
          let stream :=
            if Nat.ltb 0 (length (buffer_Bytes stream))
            then buffer_Write stream [nl] else stream in
          Continue (buffer_Write stream data) emptyMessagesCount
      else if HasPrefix line lit_error then
        let errData := TrimPrefix line lit_error in
        Continue (set_errAccumulator stream (errAccumulator stream ++ errData))
                 emptyMessagesCount
      else if Contains line lit_error_key && HasPrefix line lit_brace then
        Continue (set_errAccumulator stream
                    ((errAccumulator stream ++ line) ++ [nl]))
                 emptyMessagesCount
      else Continue stream emptyMessagesCount
  end.

(** The loop, with a bound on the number of turns. *)
Fixpoint processLines_loop (fuel : nat) (stream : streamReader)
         (emptyMessagesCount : N) : option (bytes * option error * streamReader) :=
  match fuel with
  | O => None
  | S fuel' =>
      match iteration stream emptyMessagesCount with
      | Return data err s => Some (data, err, s)
      | Continue s c => processLines_loop fuel' s c
      end
  end.

(** [processLines]: every turn that goes round again has consumed a line,
    so one turn more than there are pending bytes is enough. *)
Definition processLines (stream : streamReader)
  : option (bytes * option error * streamReader) :=
  let stream :=
    match dataBuffer stream with
    | None => set_dataBuffer stream (Some [])
    | Some _ => stream
    end in
  processLines_loop (S (length (pending (reader stream)))) stream 0%N.

(** [RecvRaw] *)
Definition RecvRaw (stream : streamReader)
  : option (bytes * option error * streamReader) :=
  if isFinished stream then Some ([], Some io_EOF, stream)
  else processLines stream.

(** The check [Recv] makes on a frame before decoding it as a message:
    the frame mentions an error and decodes to an error response that
    carries one. *)
Definition frameError (rawLine : bytes) : option APIError :=
  if Contains rawLine lit_error_key then
    let '(errResp, err) :=
      Unmarshal ErrorResponseT rawLine {| Error := None |} in
    match err, Error errResp with
    | None, Some apiErr => Some apiErr
    | _, _ => None
    end
  else None.

(** [Recv] *)
Definition Recv (stream : streamReader)
  : option (T * option error * streamReader) :=
  match RecvRaw stream with
  | None => None
  | Some (rawLine, Some err, stream) =>
      if errors_Is err S_ErrUnexpectedEOF || errors_Is err S_EOF
      then Some (zeroT, Some io_EOF, stream)
      else Some (zeroT, Some err, stream)
  | Some (rawLine, None, stream) =>
      match frameError rawLine with
      | Some apiErr => Some (zeroT, Some (APIErrorPtr (Some apiErr)), stream)
      | None =>
          let '(response, err) := Unmarshal ResponseT rawLine zeroT in
          match err with
          | Some e =>
              if Contains rawLine lit_choices
              then Some (response, None, stream)
              else Some (response, Some e, stream)
          | None => Some (response, None, stream)
          end
      end
  end.

End Stream.

Arguments unmarshalError {T} Unmarshal stream.
Arguments pendingError {T} Unmarshal stream.
Arguments iteration {T} Unmarshal stream emptyMessagesCount.
Arguments processLines_loop {T} Unmarshal fuel stream emptyMessagesCount.
Arguments processLines {T} Unmarshal stream.
Arguments RecvRaw {T} Unmarshal stream.
Arguments frameError {T} Unmarshal rawLine.
Arguments Recv {T} zeroT Unmarshal stream.

(** ** The earlier reader

    The repository keeps an earlier [streamReader] beside the one above: it
    has no data buffer, returns every data line as a frame of its own, and
    sends every other line to the error accumulator.  Its [processLines]
    is modelled here next to the current one. *)

Module Legacy.

Section Reader.

Variable T : Type.
Variable Unmarshal : forall k : target, bytes -> slot T k -> slot T k * option error.

(** [bytes.TrimSpace] works on bytes as long as the ends of the slice are
    ASCII; when it meets a byte of a multi-byte rune it hands what is left
    to the Unicode-aware [TrimFunc(_, unicode.IsSpace)], taken here as
    given. *)
Variable TrimFunc_IsSpace : bytes -> bytes.

Definition asciiSpace (c : byte) : bool := mem c [x09; x0a; x0b; x0c; x0d; x20].

Definition RuneSelf : N := 128.

(** One scan of [TrimSpace] from an end: whether a non-ASCII byte stopped
    it, and the bytes from where it stopped. *)
Fixpoint scanSpace (s : bytes) : bool * bytes :=
  match s with
  | [] => (false, [])
  | c :: s' =>
      if (RuneSelf <=? Byte.to_N c)%N then (true, s)
      else if asciiSpace c then scanSpace s'
      else (false, s)
  end.

Definition TrimSpace (s : bytes) : bytes :=
  let '(unicode, s1) := scanSpace s in
  if unicode then TrimFunc_IsSpace s1
  else
    let '(unicode, r) := scanSpace (rev s1) in
    if unicode then TrimFunc_IsSpace (rev r) else rev r.

(** The class [\s] of the regular expressions: tab, newline, form feed,
    carriage return and space. *)
Definition reSpace (c : byte) : bool := mem c [x09; x0a; x0c; x0d; x20].

Fixpoint dropSpace (s : bytes) : bytes :=
  match s with
  | [] => []
  | c :: s' => if reSpace c then dropSpace s' else s
  end.

Definition lit_header : bytes := Eval cbv in B "data:".
Definition lit_error_open : bytes := lit_brace ++ lit_error_key.

(** [headerData = ^data:\s*] and [errorPrefix = ^data:\s*{"error":]. *)
Definition headerData_Match (b : bytes) : bool := HasPrefix b lit_header.

Definition headerData_ReplaceAll (b : bytes) : bytes :=
  if HasPrefix b lit_header then dropSpace (skipn (length lit_header) b) else b.

Definition errorPrefix_Match (b : bytes) : bool :=
  HasPrefix b lit_header &&
  HasPrefix (dropSpace (skipn (length lit_header) b)) lit_error_open.

Definition errPartialData : error :=
  errors_New "stream ended unexpectedly with partial data".

Inductive outcome :=
| Return (data : bytes) (err : option error) (s : streamReader)
| Continue (s : streamReader) (emptyMessagesCount : N) (hasErrorPrefix : bool).

Definition isEOF (readErr : option error) : bool :=
  match readErr with
  | Some io_EOF => true
  | _ => false
  end.

Definition isErr (readErr : option error) : bool :=
  match readErr with
  | Some _ => true
  | None => false
  end.

(** One turn of the [for] loop of the earlier [processLines]. *)
Definition iteration (stream : streamReader) (emptyMessagesCount : N)
           (hasErrorPrefix : bool) : outcome :=
  let '(rawLine, readErr, rd) := ReadBytes (reader stream) in
  let stream := set_reader stream rd in
  if isEOF readErr && Nat.ltb 0 (length rawLine) then
    let noSpaceLine := TrimSpace rawLine in
    if headerData_Match noSpaceLine &&
       negb (bytes_eqb (headerData_ReplaceAll noSpaceLine) lit_DONE)
    then Return (headerData_ReplaceAll noSpaceLine) None stream
    else if Nat.ltb 0 (length (errAccumulator stream))
    then Return [] (Some errPartialData) stream
    else Return [] (Some io_EOF) (set_isFinished stream true)
  else if isErr readErr || hasErrorPrefix then
    if isEOF readErr && negb hasErrorPrefix &&
       Nat.eqb (length (errAccumulator stream)) 0
    then Return [] (Some io_EOF) (set_isFinished stream true)
    else
      match unmarshalError Unmarshal stream with
      | Some respErr =>
          Return [] (Some (Wrapf "error, " (APIErrorPtr (Error respErr)))) stream
      | None => Return [] readErr stream
      end
  else
    let noSpaceLine := TrimSpace rawLine in
    let hasErrorPrefix :=
      if errorPrefix_Match noSpaceLine then true else hasErrorPrefix in
    if negb (headerData_Match noSpaceLine) || hasErrorPrefix then
      let noSpaceLine :=
        if hasErrorPrefix then headerData_ReplaceAll noSpaceLine else noSpaceLine in
      let stream :=
        set_errAccumulator stream (errAccumulator stream ++ noSpaceLine) in
      let emptyMessagesCount := ((emptyMessagesCount + 1) mod uint_max)%N in
      if (emptyMessagesLimit stream <? emptyMessagesCount)%N
      then Return [] (Some ErrTooManyEmptyStreamMessages) stream
      else Continue stream emptyMessagesCount hasErrorPrefix
    else
      let noPrefixLine := headerData_ReplaceAll noSpaceLine in
      if bytes_eqb noPrefixLine lit_DONE
      then Return [] (Some io_EOF)
                  (set_receivedDone (set_isFinished stream true) true)
      else Return noPrefixLine None stream.

Fixpoint processLines_loop (fuel : nat) (stream : streamReader)
         (emptyMessagesCount : N) (hasErrorPrefix : bool)
  : option (bytes * option error * streamReader) :=
  match fuel with
  | O => None
  | S fuel' =>
      match iteration stream emptyMessagesCount hasErrorPrefix with
      | Return data err s => Some (data, err, s)
      | Continue s c h => processLines_loop fuel' s c h
      end
  end.

(** The earlier [processLines]; a turn that goes round again has consumed a
    line, or the line before it set [hasErrorPrefix] and this one returns. *)
Definition processLines (stream : streamReader)
  : option (bytes * option error * streamReader) :=
  processLines_loop (S (length (pending (reader stream)))) stream 0%N false.

(** The earlier [RecvRaw] *)
Definition RecvRaw (stream : streamReader)
  : option (bytes * option error * streamReader) :=
  if isFinished stream then Some ([], Some io_EOF, stream)
  else processLines stream.

(** The earlier [Recv]: no error check on the frame and no tolerance. *)
Variable zeroT : T.

Definition Recv (stream : streamReader)
  : option (T * option error * streamReader) :=
  match RecvRaw stream with
  | None => None
  | Some (rawLine, Some err, stream) =>
      if errors_Is err S_ErrUnexpectedEOF || errors_Is err S_EOF
      then Some (zeroT, Some io_EOF, stream)
      else Some (zeroT, Some err, stream)
  | Some (rawLine, None, stream) =>
      let '(response, err) := Unmarshal ResponseT rawLine zeroT in
      Some (response, err, stream)
  end.

End Reader.

Arguments iteration {T} Unmarshal TrimFunc_IsSpace stream emptyMessagesCount hasErrorPrefix.
Arguments processLines_loop {T} Unmarshal TrimFunc_IsSpace fuel stream emptyMessagesCount hasErrorPrefix.
Arguments processLines {T} Unmarshal TrimFunc_IsSpace stream.
Arguments RecvRaw {T} Unmarshal TrimFunc_IsSpace stream.
Arguments Recv {T} Unmarshal TrimFunc_IsSpace zeroT stream.

End Legacy.

(** ** Inputs and runs *)

(** A line terminator: any number of carriage returns, then the newline. *)
Definition eol (k : nat) : bytes := repeat cr k ++ [nl].

(** A payload that a line carries unchanged: it has no newline and does not
    end in a carriage return, so cutting the line and trimming its end give
    it back. *)
Fixpoint payload_ok (p : bytes) : bool :=
  match p with
  | [] => true
  | c :: p' =>
      negb (Byte.eqb c nl) && payload_ok p' &&
      match p' with
      | [] => negb (Byte.eqb c cr)
      | _ => true
      end
  end.

(** A payload that the reader appends to the data buffer. *)
Definition data_payload (p : bytes) : bool :=
  payload_ok p && negb (bytes_eqb p []) &&
  negb (bytes_eqb p lit_DONE) && negb (bytes_eqb p lit_done).

Definition dataLine (p : bytes) (k : nat) : bytes := lit_data ++ p ++ eol k.
Definition errorLine (p : bytes) (k : nat) : bytes := lit_error ++ p ++ eol k.

(** Consecutive data lines, each a payload with the width of its
    terminator. *)
Definition dataLines (items : list (bytes * nat)) : bytes :=
  concat (map (fun i => dataLine (fst i) (snd i)) items).

(** Consecutive error lines. *)
Definition errorLines (items : list (bytes * nat)) : bytes :=
  concat (map (fun i => errorLine (fst i) (snd i)) items).

(** What the data buffer holds after a payload is added to it. *)
Definition joined (buffer p : bytes) : bytes :=
  match buffer with
  | [] => p
  | _ => (buffer ++ [nl]) ++ p
  end.

(** Consecutive blank lines, one per terminator. *)
Definition blanks (ks : list nat) : bytes := concat (map eol ks).

(** The test [processLines] makes on a line it has read: a data line whose
    payload is one of the two terminal tokens. *)
Definition isDoneLine (rawLine : bytes) : bool :=
  let line := TrimRight rawLine lit_crlf in
  HasPrefix line lit_data &&
  (bytes_eqb (TrimPrefix line lit_data) lit_DONE ||
   bytes_eqb (TrimPrefix line lit_data) lit_done).

(** The physical lines of an input: each with its newline, the last one
    without when the input does not end in one. *)
Fixpoint lines (s : bytes) : list bytes :=
  match s with
  | [] => []
  | c :: s' =>
      if Byte.eqb c nl then [c] :: lines s'
      else match lines s' with
           | [] => [[c]]
           | l :: ls => (c :: l) :: ls
           end
  end.

(** The input is made of whole lines: it is empty or ends in a newline. *)
Fixpoint endsInNewline (l : bytes) : bool :=
  match l with
  | [] => false
  | [c] => Byte.eqb c nl
  | _ :: l' => endsInNewline l'
  end.

Definition wholeLines (s : bytes) : bool := forallb endsInNewline (lines s).

(** What is left for the pulls to do before the source is used up: the
    pending bytes, and the buffered data still to be handed out. *)
Definition workLeft (s : streamReader) : nat :=
  2 * length (pending (reader s)) +
  (if Nat.ltb 0 (length (buffer_Bytes s)) then 1 else 0).

(** No physical line of the input is a terminal line. *)
Definition noDoneLine (s : bytes) : bool :=
  forallb (fun l => negb (isDoneLine l)) (lines s).

(** The payloads of a multi-line event joined as the reader joins them. *)
Fixpoint joinLines (ps : list bytes) : bytes :=
  match ps with
  | [] => []
  | [p] => p
  | p :: ps' => p ++ [nl] ++ joinLines ps'
  end.

(** An event on the wire: blank lines, then data lines, then the blank line
    that ends it. *)
Record event := {
  ev_blanks : list nat;
  ev_items : list (bytes * nat);
  ev_eol : nat
}.

Definition eventBytes (e : event) : bytes :=
  blanks (ev_blanks e) ++ dataLines (ev_items e) ++ eol (ev_eol e).

Definition eventFrame (e : event) : bytes := joinLines (map fst (ev_items e)).

(** An event that one pull turns into a frame under the given limit: no more
    blank lines than the limit, and at least one data line, all with
    payloads to keep. *)
Definition event_ok (limit : N) (e : event) : bool :=
  (N.of_nat (length (ev_blanks e)) <=? limit)%N &&
  forallb data_payload (map fst (ev_items e)) &&
  negb (Nat.eqb (length (ev_items e)) 0).

(** The blank lines met before the frames of a run of events. *)
Definition emptyBoundaries (es : list event) : nat :=
  list_sum (map (fun e => length (ev_blanks e)) es).

Section Runs.

Variable T : Type.
Variable zeroT : T.
Variable Unmarshal : forall k : target, bytes -> slot T k -> slot T k * option error.

(** The stream [processLines] hands to its loop. *)
Definition prepare (stream : streamReader) : streamReader :=
  match dataBuffer stream with
  | None => set_dataBuffer stream (Some [])
  | Some _ => stream
  end.

(** The loop after [n] turns that all went round again. *)
Fixpoint turns (n : nat) (s : streamReader) (c : N) : option (streamReader * N) :=
  match n with
  | O => Some (s, c)
  | S n' =>
      match iteration Unmarshal s c with
      | Continue s1 c1 => turns n' s1 c1
      | Return _ _ _ => None
      end
  end.

(** [n] successive calls of [RecvRaw]: what each returned, and the stream
    after the last. *)
Fixpoint pulls (n : nat) (s : streamReader)
  : option (list (bytes * option error) * streamReader) :=
  match n with
  | O => Some ([], s)
  | S n' =>
      match RecvRaw Unmarshal s with
      | None => None
      | Some (data, err, s1) =>
          match pulls n' s1 with
          | None => None
          | Some (rs, s2) => Some ((data, err) :: rs, s2)
          end
      end
  end.

End Runs.

Arguments turns {T} Unmarshal n s c.
Arguments pulls {T} Unmarshal n s.

(** ** Concrete streams *)

(** A stand-in unmarshaler for running the reader on concrete inputs: a
    frame decodes when it is enclosed in braces, the message being the frame
    itself, and the error object of the scenario decodes to its message. *)
Definition demoFrame (data : bytes) : bool :=
  HasPrefix data lit_brace && HasPrefix (rev data) (B "}").

Definition demoBadKey : bytes :=
  Eval cbv in
    B "{" ++ quoted "error" ++ B ":{" ++ quoted "message" ++ B ":" ++
    quoted "bad key" ++ B "}}".

Definition demoBadKeyError : APIError :=
  {| Message := "bad key"; Type_ := None; Code := None |}.

Definition demoSyntaxError : error := errors_New "unexpected end of JSON input".

Definition demoUnmarshal (k : target)
  : bytes -> slot bytes k -> slot bytes k * option error :=
  match k with
  | ResponseT => fun data v =>
      if demoFrame data then (data, None) else (v, Some demoSyntaxError)
  | ErrorResponseT => fun data v =>
      if bytes_eqb data demoBadKey then ({| Error := Some demoBadKeyError |}, None)
      else if demoFrame data then (v, None)
      else (v, Some demoSyntaxError)
  | ErrorResponsePtrT => fun data v =>
      if bytes_eqb data demoBadKey then (Some {| Error := Some demoBadKeyError |}, None)
      else if demoFrame data then (Some {| Error := None |}, None)
      else (v, Some demoSyntaxError)
  end.

(** The stand-in unmarshaler made to pass over white space at the end of
    the bytes, as a JSON decoder does. *)
Definition demoUnmarshalJSON (k : target) (data : bytes)
  : slot bytes k -> slot bytes k * option error :=
  demoUnmarshal k (TrimRight data [x20; x09; x0d; x0a]).

(** A demo stream: the default limit of the client and a body that closes
    cleanly. *)
Definition defaultEmptyMessagesLimit : N := 300.

Definition demoStream (body : bytes) : streamReader :=
  newStream defaultEmptyMessagesLimit body io_EOF.

(** A heartbeat, then the terminal line, then bytes that are never read. *)
Definition demoDone : streamReader :=
  demoStream (dataLine [] 0 ++ dataLine lit_DONE 1 ++ B "left over").

(** The scenario of a frame followed by the terminal line. *)
Definition demoFrameThenDone : streamReader :=
  demoStream (dataLine (B "{a}") 0 ++ eol 0 ++ dataLine lit_DONE 0 ++ eol 0).

(** A frame and a clean close with no terminal line. *)
Definition demoFrameThenClose : streamReader :=
  demoStream (dataLine (B "{a}") 0 ++ eol 0).

(** A data line and a close before any blank line. *)
Definition demoDataThenClose : streamReader :=
  demoStream (dataLine (B "{a}") 0).

(** A data line that the close cuts before its newline. *)
Definition demoCutDataLine : streamReader :=
  demoStream (lit_data ++ B "{a}").

(** An error line and a close before any blank line. *)
Definition demoErrorThenClose : streamReader :=
  demoStream (errorLine demoBadKey 0).

(** The scenario of an error line followed by a blank line. *)
Definition demoErrorEvent : streamReader :=
  demoStream (errorLines [(demoBadKey, 0)] ++ eol 0 ++ []).

(** Four blank lines under a limit of three. *)
Definition demoBlanks : streamReader :=
  newStream 3 (blanks [0; 1; 0; 0] ++ []) io_EOF.

(** A stream that has finished. *)
Definition demoFinished : streamReader :=
  set_isFinished (demoStream (B "never read")) true.

(** Two data lines, a blank line and more. *)
Definition demoTwoLines : streamReader :=
  demoStream (dataLines [(B "{a", 0); (B "b}", 1)] ++ eol 0 ++ B "more").



(** Two events with one blank line each, under a limit of one. *)
Definition demoEvents : list event :=
  [ {| ev_blanks := [0]; ev_items := [(B "{a}", 0)]; ev_eol := 0 |};
    {| ev_blanks := [1]; ev_items := [(B "{b}", 0)]; ev_eol := 0 |} ].

Definition demoTwoEvents : streamReader :=
  newStream 1 (concat (map eventBytes demoEvents) ++ []) io_EOF.

(** Four blank lines under a limit of one. *)
Definition demoManyBlanks : streamReader :=
  newStream 1 (blanks [0; 0; 0; 0] ++ []) io_EOF.






(** A JSON error object on a line of its own and a close before any blank
    line; an error line followed by a line that the close cuts. *)
Definition demoRawErrorThenClose : streamReader :=
  demoStream (demoBadKey ++ [nl]).

Definition demoErrorThenCutLine : streamReader :=
  demoStream (errorLine (B "x") 0 ++ B "tail").

(** ** Decoding, and runs of [Recv] *)

Section Decode.

Variable T : Type.
Variable zeroT : T.
Variable Unmarshal : forall k : target, bytes -> slot T k -> slot T k * option error.

(** What [Recv] makes of a frame that [RecvRaw] gave it with a nil error:
    the error check, then the decoding with its tolerance. *)
Definition decodeFrame (rawLine : bytes) : T * option error :=
  match frameError Unmarshal rawLine with
  | Some apiErr => (zeroT, Some (APIErrorPtr (Some apiErr)))
  | None =>
      let '(response, err) := Unmarshal ResponseT rawLine zeroT in
      match err with
      | Some e =>
          if Contains rawLine lit_choices then (response, None)
          else (response, Some e)
      | None => (response, None)
      end
  end.

(** [n] successive calls of [Recv]. *)
Fixpoint recvs (n : nat) (s : streamReader)
  : option (list (T * option error) * streamReader) :=
  match n with
  | O => Some ([], s)
  | S n' =>
      match Recv zeroT Unmarshal s with
      | None => None
      | Some (m, err, s1) =>
          match recvs n' s1 with
          | None => None
          | Some (rs, s2) => Some ((m, err) :: rs, s2)
          end
      end
  end.

End Decode.

Arguments decodeFrame {T} zeroT Unmarshal rawLine.
Arguments recvs {T} zeroT Unmarshal n s.

(** The stream with other bytes pending, and with more reads counted. *)
Definition withPending (s : streamReader) (p : bytes) : streamReader :=
  set_reader s {| pending := p; srcErr := srcErr (reader s);
                  reads := reads (reader s) |}.

Definition addReads (s : streamReader) (n : nat) : streamReader :=
  set_reader s {| pending := pending (reader s); srcErr := srcErr (reader s);
                  reads := reads (reader s) + n |}.

(** A whole line that [processLines] passes over: a data line with an empty
    payload, or a line that is neither blank, nor a data line, nor an error
    line, nor a JSON object that mentions an error. *)
Definition inertLine (l : bytes) : bool :=
  match cut_at nl l with
  | Some (_, []) =>
      let line := TrimRight l lit_crlf in
      negb (Nat.eqb (length line) 0) &&
      (if HasPrefix line lit_data
       then bytes_eqb (TrimPrefix line lit_data) []
       else negb (HasPrefix line lit_error) &&
            negb (Contains line lit_error_key && HasPrefix line lit_brace))
  | _ => false
  end.

(** A whole line that is a JSON object mentioning an error, as the reader
    tests it: it starts with a brace and contains the error key. *)
Definition rawErrorLine (l : bytes) : bool :=
  match cut_at nl l with
  | Some (_, []) =>
      let line := TrimRight l lit_crlf in
      Contains line lit_error_key && HasPrefix line lit_brace
  | _ => false
  end.

(** *** Lines as the earlier reader takes them *)

(** A byte that ends the trimming of [TrimSpace]: ASCII and no white
    space. *)
Definition edgeByte (c : byte) : bool :=
  (Byte.to_N c <? Legacy.RuneSelf)%N && negb (Legacy.asciiSpace c).

(** A payload that the trimming leaves whole: it starts and ends with such
    a byte and has no newline. *)
Definition tightPayload (p : bytes) : bool :=
  match p with
  | [] => false
  | c :: _ => edgeByte c
  end &&
  match rev p with
  | [] => false
  | c :: _ => edgeByte c
  end &&
  negb (mem nl p).

(** White space between the colon and the payload. *)
Definition blankBytes (ws : bytes) : bool :=
  forallb (fun c => Legacy.reSpace c && negb (Byte.eqb c nl)) ws.

(** A data line with any white space after the colon, also none. *)
Definition headerLine (ws p : bytes) : bytes := Legacy.lit_header ++ ws ++ p.

(** ** The client configuration (config.go) *)

Module Config.

Import Ascii.

Definition openaiAPIURLv1 : string := "https://api.openai.com/v1"%string.
Definition anthropicAPIURLv1 : string := "https://api.anthropic.com/v1"%string.
Definition AnthropicAPIVersion : string := "2023-06-01"%string.
Definition defaultAssistantVersion : string := "v2"%string.

Definition APIType := string.
Definition APITypeOpenAI : APIType := "OPEN_AI"%string.
Definition APITypeAzure : APIType := "AZURE"%string.
Definition APITypeAzureAD : APIType := "AZURE_AD"%string.
Definition APITypeCloudflareAzure : APIType := "CLOUDFLARE_AZURE"%string.
Definition APITypeAnthropic : APIType := "ANTHROPIC"%string.

(** [regexp.MustCompile(`[.:]`).ReplaceAllString(model, empty)]: every dot
    and every colon is taken out. *)
Definition dot : ascii := "."%char.
Definition colon : ascii := ":"%char.

Fixpoint removeDotsAndColons (model : string) : string :=
  match model with
  | EmptyString => EmptyString
  | String c rest =>
      if (Ascii.eqb c dot || Ascii.eqb c colon)%bool
      then removeDotsAndColons rest
      else String c (removeDotsAndColons rest)
  end.

Section Client.

(** The HTTP client is the standard library's; the configuration only
    carries it. *)
Variable HTTPDoer : Type.
Variable defaultHTTPClient : HTTPDoer.

Record ClientConfig := {
  authToken : string;
  BaseURL : string;
  OrgID : string;
  APIType_ : APIType;
  APIVersion : string;
  AssistantVersion : string;
  AzureModelMapperFunc : option (string -> string);
  HTTPClient : HTTPDoer;
  EmptyMessagesLimit : N
}.

Definition DefaultConfig (token : string) : ClientConfig :=
  {| authToken := token;
     BaseURL := openaiAPIURLv1;
     OrgID := EmptyString;
     APIType_ := APITypeOpenAI;
     APIVersion := EmptyString;
     AssistantVersion := defaultAssistantVersion;
     AzureModelMapperFunc := None;
     HTTPClient := defaultHTTPClient;
     EmptyMessagesLimit := defaultEmptyMessagesLimit |}.

Definition DefaultAzureConfig (apiKey baseURL : string) : ClientConfig :=
  {| authToken := apiKey;
     BaseURL := baseURL;
     OrgID := EmptyString;
     APIType_ := APITypeAzure;
     APIVersion := "2023-05-15"%string;
     AssistantVersion := EmptyString;
     AzureModelMapperFunc := Some removeDotsAndColons;
     HTTPClient := defaultHTTPClient;
     EmptyMessagesLimit := defaultEmptyMessagesLimit |}.

Definition DefaultAnthropicConfig (apiKey baseURL : string) : ClientConfig :=
  let baseURL :=
    if String.eqb baseURL EmptyString then anthropicAPIURLv1 else baseURL in
  {| authToken := apiKey;
     BaseURL := baseURL;
     OrgID := EmptyString;
     APIType_ := APITypeAnthropic;
     APIVersion := AnthropicAPIVersion;
     AssistantVersion := EmptyString;
     AzureModelMapperFunc := None;
     HTTPClient := defaultHTTPClient;
     EmptyMessagesLimit := defaultEmptyMessagesLimit |}.

Definition GetAzureDeploymentByModel (c : ClientConfig) (model : string) : string :=
  match AzureModelMapperFunc c with
  | Some f => f model
  | None => model
  end.

End Client.

End Config.

(** ** Byte-slice lemmas *)

Lemma bytes_eqb_eq (a b : bytes) : bytes_eqb a b = true <-> a = b.
Proof.
  revert b; induction a as [|x a IH]; intros [|y b]; simpl; split; intro H;
    try reflexivity; try discriminate.
  - apply andb_true_iff in H as [Hx Hab].
    apply Byte.byte_dec_bl in Hx. apply IH in Hab. now subst.
  - injection H as -> ->. apply andb_true_iff; split.
    + now apply Byte.byte_dec_lb.
    + now apply IH.
Qed.

Lemma bytes_eqb_refl (a : bytes) : bytes_eqb a a = true.
Proof. now apply bytes_eqb_eq. Qed.

Lemma bytes_eqb_neq (a b : bytes) : bytes_eqb a b = false <-> a <> b.
Proof.
  split.
  - intros H E. apply bytes_eqb_eq in E. congruence.
  - intro H. destruct (bytes_eqb a b) eqn:E; [|reflexivity].
    apply bytes_eqb_eq in E. contradiction.
Qed.

Lemma byte_eqb_refl (c : byte) : Byte.eqb c c = true.
Proof. now apply Byte.byte_dec_lb. Qed.

Lemma HasPrefix_app (p s : bytes) : HasPrefix (p ++ s) p = true.
Proof.
  induction p as [|c p IH]; simpl; [reflexivity|].
  now rewrite byte_eqb_refl, IH.
Qed.

Lemma skipn_length_app (p s : bytes) : skipn (length p) (p ++ s) = s.
Proof. induction p; simpl; auto. Qed.

Lemma TrimPrefix_app (p s : bytes) : TrimPrefix (p ++ s) p = s.
Proof. unfold TrimPrefix. now rewrite HasPrefix_app, skipn_length_app. Qed.

Lemma HasPrefix_split (s p : bytes) :
  HasPrefix s p = true -> s = p ++ TrimPrefix s p.
Proof.
  intro H. unfold TrimPrefix. rewrite H. revert s H.
  induction p as [|c p IH]; intros [|x s] H; simpl in *;
    try reflexivity; try discriminate.
  apply andb_true_iff in H as [Hx Hs].
  apply Byte.byte_dec_bl in Hx. subst. f_equal. now apply IH.
Qed.

(** *** Cutting a line *)

Lemma cut_at_Some (d : byte) (s line rest : bytes) :
  cut_at d s = Some (line, rest) ->
  s = line ++ rest /\ length rest < length s /\ exists l0, line = l0 ++ [d].
Proof.
  revert line rest; induction s as [|c s IH]; intros line rest H; simpl in H.
  - discriminate.
  - destruct (Byte.eqb c d) eqn:E.
    + injection H as <- <-. apply Byte.byte_dec_bl in E. subst.
      split; [reflexivity|]. split; [simpl; lia|]. now exists [].
    + destruct (cut_at d s) as [[l r]|] eqn:C; [|discriminate].
      injection H as <- <-.
      destruct (IH l r eq_refl) as (-> & Hlen & l0 & ->).
      split; [reflexivity|]. split; [simpl; lia|]. now exists (c :: l0).
Qed.

Lemma cut_at_app (d : byte) (l r : bytes) :
  mem d l = false -> cut_at d (l ++ d :: r) = Some (l ++ [d], r).
Proof.
  induction l as [|c l IH]; simpl; intro H.
  - now rewrite byte_eqb_refl.
  - apply orb_false_iff in H as [Hc Hl].
    assert (E : Byte.eqb c d = false).
    { destruct (Byte.eqb c d) eqn:E; [|reflexivity].
      apply Byte.byte_dec_bl in E. subst. now rewrite byte_eqb_refl in Hc. }
    now rewrite E, IH.
Qed.

Lemma cut_at_None_app (d : byte) (s t : bytes) :
  cut_at d s = None -> cut_at d (s ++ t) =
  match cut_at d t with
  | Some (line, rest) => Some (s ++ line, rest)
  | None => None
  end.
Proof.
  induction s as [|c s IH]; simpl; intro H.
  - now destruct (cut_at d t) as [[? ?]|].
  - destruct (Byte.eqb c d); [discriminate|].
    destruct (cut_at d s) as [[? ?]|]; [discriminate|].
    rewrite IH by reflexivity. now destruct (cut_at d t) as [[? ?]|].
Qed.

Lemma cut_at_Some_app (d : byte) (s t line rest : bytes) :
  cut_at d s = Some (line, rest) -> cut_at d (s ++ t) = Some (line, rest ++ t).
Proof.
  revert line rest; induction s as [|c s IH]; simpl; intros line rest H.
  - discriminate.
  - destruct (Byte.eqb c d).
    + now injection H as <- <-.
    + destruct (cut_at d s) as [[l r]|]; [|discriminate].
      injection H as <- <-. now rewrite (IH l r).
Qed.

Lemma cut_at_lines (s line rest : bytes) :
  cut_at nl s = Some (line, rest) -> lines s = line :: lines rest.
Proof.
  revert line rest; induction s as [|c s IH]; simpl; intros line rest H.
  - discriminate.
  - destruct (Byte.eqb c nl).
    + now injection H as <- <-.
    + destruct (cut_at nl s) as [[l r]|]; [|discriminate].
      injection H as <- <-. now rewrite (IH l r).
Qed.

(** *** Trimming the end of a line *)

Lemma TrimRight_app_nil (s t cutset : bytes) :
  TrimRight t cutset = [] -> TrimRight (s ++ t) cutset = TrimRight s cutset.
Proof.
  intro H. induction s as [|c s IH]; simpl; [assumption|]. now rewrite IH.
Qed.

Lemma TrimRight_app_keep (s t cutset : bytes) :
  TrimRight t cutset = t -> t <> [] -> TrimRight (s ++ t) cutset = s ++ t.
Proof.
  intros H Hne. induction s as [|c s IH]; simpl; [assumption|].
  rewrite IH. destruct (s ++ t) eqn:E; [|reflexivity].
  apply app_eq_nil in E as [_ ->]. contradiction.
Qed.

Lemma TrimRight_eol (k : nat) : TrimRight (eol k) lit_crlf = [].
Proof.
  unfold eol. induction k as [|k IH]; simpl; [reflexivity|].
  simpl in IH. now rewrite IH.
Qed.

Lemma TrimRight_payload (p : bytes) :
  payload_ok p = true -> TrimRight p lit_crlf = p.
Proof.
  induction p as [|c p IH]; simpl; [reflexivity|].
  intro H. apply andb_true_iff in H as [H Hlast].
  apply andb_true_iff in H as [Hc Hp].
  rewrite (IH Hp). destruct p as [|c' p]; [|reflexivity].
  unfold nl, cr in *.
  destruct (Byte.eqb c x0d), (Byte.eqb c x0a); simpl in *;
    try discriminate; reflexivity.
Qed.

Lemma payload_ok_no_nl (p : bytes) : payload_ok p = true -> mem nl p = false.
Proof.
  induction p as [|c p IH]; simpl; [reflexivity|].
  intro H. apply andb_true_iff in H as [H _].
  apply andb_true_iff in H as [Hc Hp].
  rewrite (IH Hp), orb_false_r.
  destruct (Byte.eqb nl c) eqn:E; [|reflexivity].
  apply Byte.byte_dec_bl in E. subst. now rewrite byte_eqb_refl in Hc.
Qed.

Lemma mem_app (c : byte) (a b : bytes) : mem c (a ++ b) = mem c a || mem c b.
Proof. induction a as [|x a IH]; simpl; [reflexivity|]. now rewrite IH, orb_assoc. Qed.

Lemma mem_nl_repeat_cr (k : nat) : mem nl (repeat cr k) = false.
Proof. induction k; simpl; auto. Qed.

(** A line made of a prefix without newline, a payload and a terminator is
    cut whole from the input. *)
Lemma cut_at_line (pre p rest : bytes) (k : nat) :
  mem nl pre = false -> payload_ok p = true ->
  cut_at nl ((pre ++ p ++ eol k) ++ rest) = Some (pre ++ p ++ eol k, rest).
Proof.
  intros Hpre Hp. unfold eol.
  replace ((pre ++ p ++ repeat cr k ++ [nl]) ++ rest)
    with ((pre ++ p ++ repeat cr k) ++ nl :: rest)
    by (repeat rewrite <- app_assoc; reflexivity).
  rewrite cut_at_app.
  - repeat rewrite <- app_assoc. reflexivity.
  - now rewrite !mem_app, Hpre, (payload_ok_no_nl p Hp), mem_nl_repeat_cr.
Qed.

(** Trimming such a line gives the prefix and the payload back. *)
Lemma TrimRight_line (pre p : bytes) (k : nat) :
  TrimRight pre lit_crlf = pre -> pre <> [] -> payload_ok p = true ->
  TrimRight (pre ++ p ++ eol k) lit_crlf = pre ++ p.
Proof.
  intros Hpre Hne Hp.
  rewrite app_assoc, TrimRight_app_nil by apply TrimRight_eol.
  destruct p as [|c p].
  - now rewrite app_nil_r.
  - apply TrimRight_app_keep; [now apply TrimRight_payload | discriminate].
Qed.

(** ** The line source *)

Lemma ReadBytes_line (r : Reader) (line rest : bytes) :
  cut_at nl (pending r) = Some (line, rest) ->
  ReadBytes r =
  (line, None, {| pending := rest; srcErr := srcErr r; reads := S (reads r) |}).
Proof. intro H. unfold ReadBytes. now rewrite H. Qed.

Lemma ReadBytes_ok_inv (r rd : Reader) (rawLine : bytes) :
  ReadBytes r = (rawLine, None, rd) ->
  cut_at nl (pending r) = Some (rawLine, pending rd) /\
  srcErr rd = srcErr r /\ reads rd = S (reads r).
Proof.
  unfold ReadBytes. destruct (cut_at nl (pending r)) as [[l rest]|]; intro H.
  - injection H as <- <-. auto.
  - discriminate.
Qed.

Lemma ReadBytes_err_inv (r rd : Reader) (rawLine : bytes) (e : error) :
  ReadBytes r = (rawLine, Some e, rd) ->
  e = srcErr r /\ pending rd = [] /\ srcErr rd = srcErr r /\
  reads rd = S (reads r) /\ cut_at nl (pending r) = None.
Proof.
  unfold ReadBytes. destruct (cut_at nl (pending r)) as [[l rest]|]; intro H.
  - discriminate.
  - injection H as <- <- <-. auto.
Qed.

Lemma ReadBytes_shorter (r rd : Reader) (rawLine : bytes) :
  ReadBytes r = (rawLine, None, rd) -> length (pending rd) < length (pending r).
Proof.
  intro H. apply ReadBytes_ok_inv in H as (H & _).
  now apply cut_at_Some in H as (_ & H & _).
Qed.

(** ** The loop of [processLines] *)

(** Takes the conditionals of a turn of the loop apart. *)
Ltac crack H :=
  repeat match type of H with
         | context [match ?x with _ => _ end] =>
             let E := fresh "E" in destruct x eqn:E
         end.

Section Properties.

Variable T : Type.
Variable zeroT : T.
Variable Unmarshal : forall k : target, bytes -> slot T k -> slot T k * option error.


(** A turn that goes round again has read a whole line, which was not a
    terminal line, and leaves the flags and the limit alone. *)
Lemma iteration_Continue (s s' : streamReader) (c c' : N) :
  iteration Unmarshal s c = Continue s' c' ->
  exists rawLine,
    ReadBytes (reader s) = (rawLine, None, reader s') /\
    isDoneLine rawLine = false /\
    isFinished s' = isFinished s /\
    receivedDone s' = receivedDone s /\
    emptyMessagesLimit s' = emptyMessagesLimit s.
Proof.
  unfold iteration.
  destruct (ReadBytes (reader s)) as [[rawLine readErr] rd] eqn:HR.
  intro H. exists rawLine. unfold isDoneLine.
  destruct readErr as [e|].
  - crack H; discriminate.
  - crack H; try discriminate; injection H as <- <-; simpl;
      repeat split; auto;
      rewrite ?andb_false_r, ?andb_false_l; try reflexivity.
    all: try (match goal with
              | E : HasPrefix ?l lit_data = true |- _ => rewrite E
              end; simpl; assumption).
    all: match goal with
         | E : Nat.eqb (length ?l) 0 = true |- _ =>
             destruct l; [reflexivity | discriminate]
         end.
Qed.

Lemma iteration_Continue_shorter (s s' : streamReader) (c c' : N) :
  iteration Unmarshal s c = Continue s' c' ->
  length (pending (reader s')) < length (pending (reader s)).
Proof.
  intro H. apply iteration_Continue in H as (raw & HR & _).
  now apply ReadBytes_shorter in HR.
Qed.

(** The loop always returns: it needs at most one turn more than there
    are pending bytes. *)
Lemma processLines_loop_returns (fuel : nat) (s : streamReader) (c : N) :
  length (pending (reader s)) < fuel ->
  exists r, processLines_loop Unmarshal fuel s c = Some r.
Proof.
  revert s c; induction fuel as [|fuel IH]; intros s c Hlen; [lia|].
  simpl. destruct (iteration Unmarshal s c) as [d e s'|s' c'] eqn:E.
  - eauto.
  - apply IH. apply iteration_Continue_shorter in E. lia.
Qed.

(** After turns Unmarshal that went round again, the turn that returns decides the
    result of the loop. *)
Lemma processLines_loop_turns (n fuel : nat) (s s' s'' : streamReader)
      (c c' : N) (d : bytes) (e : option error) :
  turns Unmarshal n s c = Some (s', c') ->
  iteration Unmarshal s' c' = Return d e s'' ->
  length (pending (reader s)) < fuel ->
  processLines_loop Unmarshal fuel s c = Some (d, e, s'').
Proof.
  revert fuel s c; induction n as [|n IH]; intros fuel s c Ht Hi Hlen.
  - injection Ht as <- <-. destruct fuel; [lia|]. simpl. now rewrite Hi.
  - simpl in Ht. destruct (iteration Unmarshal s c) as [|s1 c1] eqn:E; [discriminate|].
    destruct fuel; [lia|]. simpl. rewrite E. apply IH; auto.
    apply iteration_Continue_shorter in E. lia.
Qed.

(** Induction over the turns Unmarshal of the loop. *)
Lemma processLines_loop_ind
      (P : streamReader -> N -> Prop)
      (Q : bytes -> option error -> streamReader -> Prop) :
  (forall s c s' c', P s c -> iteration Unmarshal s c = Continue s' c' -> P s' c') ->
  (forall s c d e s', P s c -> iteration Unmarshal s c = Return d e s' -> Q d e s') ->
  forall fuel s c d e s',
    P s c -> processLines_loop Unmarshal fuel s c = Some (d, e, s') -> Q d e s'.
Proof.
  intros Hstep Hret. induction fuel as [|fuel IH]; intros s c d e s' HP H.
  - discriminate.
  - simpl in H. destruct (iteration Unmarshal s c) as [d1 e1 s1|s1 c1] eqn:E.
    + injection H as <- <- <-. eauto.
    + eauto.
Qed.

Lemma prepare_reader (s : streamReader) : reader (prepare s) = reader s.
Proof. unfold prepare. now destruct (dataBuffer s). Qed.

Lemma processLines_prepare (s : streamReader) :
  processLines Unmarshal s =
  processLines_loop Unmarshal (S (length (pending (reader s)))) (prepare s) 0%N.
Proof.
  unfold processLines, prepare.
  now destruct (dataBuffer s).
Qed.

Lemma RecvRaw_returns (s : streamReader) : exists r, RecvRaw Unmarshal s = Some r.
Proof.
  unfold RecvRaw. destruct (isFinished s); [eauto|].
  rewrite processLines_prepare.
  apply processLines_loop_returns. rewrite prepare_reader. lia.
Qed.

(** A pull whose loop reaches a turn that returns gives what that turn
    returns. *)
Lemma RecvRaw_turns (n : nat) (s s' s'' : streamReader) (c' : N)
      (d : bytes) (e : option error) :
  isFinished s = false ->
  turns Unmarshal n (prepare s) 0%N = Some (s', c') ->
  iteration Unmarshal s' c' = Return d e s'' ->
  RecvRaw Unmarshal s = Some (d, e, s'').
Proof.
  intros Hf Ht Hi. unfold RecvRaw. rewrite Hf.
  rewrite processLines_prepare.
  eapply processLines_loop_turns; eauto. rewrite prepare_reader. lia.
Qed.

End Properties.

(** ** The pull operations *)

Section Pulls.

Variable T : Type.
Variable zeroT : T.
Variable Unmarshal : forall k : target, bytes -> slot T k -> slot T k * option error.

(** [Recv] after a pull that ended in [io.EOF]. *)
Lemma Recv_EOF (s s' : streamReader) (d : bytes) :
  RecvRaw Unmarshal s = Some (d, Some io_EOF, s') ->
  Recv zeroT Unmarshal s = Some (zeroT, Some io_EOF, s').
Proof. intro H. unfold Recv. now rewrite H. Qed.

(** [Recv] hands on an error that is not of the end-of-file class. *)
Lemma Recv_error (s s' : streamReader) (d : bytes) (e : error) :
  RecvRaw Unmarshal s = Some (d, Some e, s') ->
  errors_Is e S_ErrUnexpectedEOF = false -> errors_Is e S_EOF = false ->
  Recv zeroT Unmarshal s = Some (zeroT, Some e, s').
Proof. intros H H1 H2. unfold Recv. now rewrite H, H1, H2. Qed.

(** The turn that reads a terminal line. *)
Lemma iteration_done (s : streamReader) (c : N) (rawLine : bytes) (rd : Reader) :
  ReadBytes (reader s) = (rawLine, None, rd) ->
  isDoneLine rawLine = true ->
  iteration Unmarshal s c =
  Return [] (Some io_EOF)
         (set_receivedDone (set_isFinished (set_reader s rd) true) true).
Proof.
  intros HR HD. unfold isDoneLine in HD.
  apply andb_true_iff in HD as [Hp Hd].
  unfold iteration. rewrite HR.
  destruct (TrimRight rawLine lit_crlf) as [|x line] eqn:E.
  - discriminate.
  - cbn [length Nat.eqb]. now rewrite Hp, Hd.
Qed.

(** C6: once the finished flag is set, [RecvRaw], and so [Recv], returns
    [io.EOF] and leaves the stream as it is, the reader with its pending
    bytes and its count of reads included; this holds for every later
    pull. *)
Theorem finished_stream_is_inert (s : streamReader) :
  isFinished s = true ->
  RecvRaw Unmarshal s = Some ([], Some io_EOF, s) /\
  Recv zeroT Unmarshal s = Some (zeroT, Some io_EOF, s) /\
  forall n, pulls Unmarshal n s = Some (repeat ([], Some io_EOF) n, s).
Proof.
  intro Hf.
  assert (HR : RecvRaw Unmarshal s = Some ([], Some io_EOF, s))
    by (unfold RecvRaw; now rewrite Hf).
  split; [exact HR|]. split; [now apply Recv_EOF with (d := [])|].
  induction n as [|n IH]; simpl; [reflexivity|]. now rewrite HR, IH.
Qed.

(** C1: when a turn of the loop of a pull reads a data line whose payload
    is [[DONE]] or [done], the pull returns [io.EOF] with both flags set,
    and the reader is left as that read left it: the bytes after the line
    are still pending and no further read was made. *)
Theorem done_line_ends_the_stream
        (st s : streamReader) (n : nat) (c : N) (rawLine : bytes) (rd : Reader) :
  isFinished st = false ->
  turns Unmarshal n (prepare st) 0%N = Some (s, c) ->
  ReadBytes (reader s) = (rawLine, None, rd) ->
  HasPrefix (TrimRight rawLine lit_crlf) lit_data = true ->
  TrimPrefix (TrimRight rawLine lit_crlf) lit_data = lit_DONE \/
  TrimPrefix (TrimRight rawLine lit_crlf) lit_data = lit_done ->
  exists final,
    RecvRaw Unmarshal st = Some ([], Some io_EOF, final) /\
    Recv zeroT Unmarshal st = Some (zeroT, Some io_EOF, final) /\
    isFinished final = true /\ receivedDone final = true /\
    reader final = rd /\
    pending (reader s) = rawLine ++ pending (reader final) /\
    reads (reader final) = S (reads (reader s)).
Proof.
  intros Hf Ht HR Hp Hd.
  assert (HD : isDoneLine rawLine = true).
  { unfold isDoneLine. rewrite Hp. simpl.
    destruct Hd as [-> | ->]; reflexivity. }
  pose proof (iteration_done s c rawLine rd HR HD) as Hi.
  assert (Hraw := RecvRaw_turns _ Unmarshal n st _ _ _ _ _ Hf Ht Hi).
  eexists. split; [exact Hraw|]. split; [now apply Recv_EOF with (d := [])|].
  simpl. repeat split.
  - apply ReadBytes_ok_inv in HR as (HR & _).
    now apply cut_at_Some in HR as (HR & _).
  - now apply ReadBytes_ok_inv in HR as (_ & _ & HR).
Qed.

(** *** Flags along the turns of a pull *)

Lemma prepare_flags (s : streamReader) :
  isFinished (prepare s) = isFinished s /\
  receivedDone (prepare s) = receivedDone s /\
  emptyMessagesLimit (prepare s) = emptyMessagesLimit s /\
  errAccumulator (prepare s) = errAccumulator s /\
  buffer_Bytes (prepare s) = buffer_Bytes s.
Proof. unfold prepare, buffer_Bytes. destruct (dataBuffer s) eqn:E; simpl; rewrite ?E; auto. Qed.

Lemma turns_flags (n : nat) (s s' : streamReader) (c c' : N) :
  turns Unmarshal n s c = Some (s', c') ->
  isFinished s' = isFinished s /\
  receivedDone s' = receivedDone s /\
  emptyMessagesLimit s' = emptyMessagesLimit s.
Proof.
  revert s c; induction n as [|n IH]; simpl; intros s c H.
  - injection H as <- <-. auto.
  - destruct (iteration Unmarshal s c) as [|s1 c1] eqn:E; [discriminate|].
    apply iteration_Continue in E as (_ & _ & _ & E1 & E2 & E3).
    apply IH in H as (H1 & H2 & H3). repeat split; congruence.
Qed.

Lemma pull_turn_flags (n : nat) (st s : streamReader) (c : N) :
  turns Unmarshal n (prepare st) 0%N = Some (s, c) ->
  isFinished s = isFinished st /\
  receivedDone s = receivedDone st /\
  emptyMessagesLimit s = emptyMessagesLimit st.
Proof.
  intro H. apply turns_flags in H as (H1 & H2 & H3).
  destruct (prepare_flags st) as (P1 & P2 & P3 & _).
  repeat split; congruence.
Qed.

Lemma turns_app (n m : nat) (s s' : streamReader) (c c' : N) :
  turns Unmarshal n s c = Some (s', c') ->
  turns Unmarshal (n + m) s c = turns Unmarshal m s' c'.
Proof.
  revert s c; induction n as [|n IH]; simpl; intros s c H.
  - now injection H as <- <-.
  - destruct (iteration Unmarshal s c) as [|s1 c1]; [discriminate|]. now apply IH.
Qed.

(** *** End of the byte source *)

(** The turn in which the source reports [io.EOF]. *)
Lemma iteration_eof (s : streamReader) (c : N) (rawLine : bytes) (rd : Reader) :
  ReadBytes (reader s) = (rawLine, Some io_EOF, rd) ->
  iteration Unmarshal s c =
  if Nat.ltb 0 (length (buffer_Bytes s))
  then Return (buffer_Bytes s) None (buffer_Reset (set_reader s rd))
  else Return [] (Some io_EOF) (set_isFinished (set_reader s rd) true).
Proof. intro HR. unfold iteration. now rewrite HR. Qed.

(** C3: when the source reports [io.EOF] in a turn of a pull while the data
    buffer holds bytes, the pull returns exactly those bytes with a nil
    error and leaves the stream unfinished with an empty buffer; the pull
    after it returns [io.EOF] and sets the finished flag. *)
Theorem eof_flushes_buffered_data
        (st s : streamReader) (n : nat) (c : N) (rawLine d : bytes) (rd : Reader) :
  isFinished st = false ->
  turns Unmarshal n (prepare st) 0%N = Some (s, c) ->
  ReadBytes (reader s) = (rawLine, Some io_EOF, rd) ->
  dataBuffer s = Some d -> d <> [] ->
  exists s1 s2,
    RecvRaw Unmarshal st = Some (d, None, s1) /\
    isFinished s1 = false /\ dataBuffer s1 = Some [] /\
    RecvRaw Unmarshal s1 = Some ([], Some io_EOF, s2) /\
    Recv zeroT Unmarshal s1 = Some (zeroT, Some io_EOF, s2) /\
    isFinished s2 = true.
Proof.
  intros Hf Ht HR Hd Hne.
  pose proof (iteration_eof s c rawLine rd HR) as Hi.
  assert (Hb : buffer_Bytes s = d) by (unfold buffer_Bytes; now rewrite Hd).
  rewrite Hb in Hi.
  assert (Hlen : Nat.ltb 0 (length d) = true)
    by (destruct d; [contradiction | reflexivity]).
  rewrite Hlen in Hi.
  assert (H1 := RecvRaw_turns _ Unmarshal n st _ _ _ _ _ Hf Ht Hi).
  destruct (pull_turn_flags n st s c Ht) as (F1 & _).
  apply ReadBytes_err_inv in HR as (He & Hp & Hs & _ & _).
  set (s1 := buffer_Reset (set_reader s rd)) in *.
  assert (Hf1 : isFinished s1 = false) by (simpl; congruence).
  assert (HR1 : ReadBytes (reader s1) =
                ([], Some io_EOF,
                 {| pending := []; srcErr := srcErr rd; reads := S (reads rd) |})).
  { simpl. unfold ReadBytes. rewrite Hp. simpl. now rewrite Hs, <- He. }
  pose proof (iteration_eof s1 0%N _ _ HR1) as Hi1. simpl in Hi1.
  assert (Ht1 : turns Unmarshal 0 (prepare s1) 0%N = Some (s1, 0%N)) by reflexivity.
  assert (H2 := RecvRaw_turns _ Unmarshal 0 s1 _ _ _ _ _ Hf1 Ht1 Hi1).
  eexists; eexists. split; [exact H1|]. split; [exact Hf1|].
  split; [reflexivity|]. split; [exact H2|].
  split; [now apply Recv_EOF with (d := [])|]. reflexivity.
Qed.

(** C4 fails on the reader: when the source reports [io.EOF] in a turn of
    a pull while the data buffer is empty, the pull sets the finished flag
    and returns [io.EOF], whatever the error accumulator holds.  The branch
    tests the data buffer alone; the accumulated bytes stay where they are,
    no later pull looks at them, and no error other than the end-of-stream
    signal comes out. *)
Theorem eof_with_empty_buffer_is_end_of_stream
        (st s : streamReader) (n : nat) (c : N) (rawLine : bytes) (rd : Reader) :
  isFinished st = false ->
  turns Unmarshal n (prepare st) 0%N = Some (s, c) ->
  ReadBytes (reader s) = (rawLine, Some io_EOF, rd) ->
  buffer_Bytes s = [] ->
  exists final,
    RecvRaw Unmarshal st = Some ([], Some io_EOF, final) /\
    Recv zeroT Unmarshal st = Some (zeroT, Some io_EOF, final) /\
    isFinished final = true /\
    errAccumulator final = errAccumulator s /\
    receivedDone final = receivedDone st.
Proof.
  intros Hf Ht HR Hb.
  pose proof (iteration_eof s c rawLine rd HR) as Hi.
  rewrite Hb in Hi. simpl in Hi.
  assert (H1 := RecvRaw_turns _ Unmarshal n st _ _ _ _ _ Hf Ht Hi).
  destruct (pull_turn_flags n st s c Ht) as (_ & F2 & _).
  eexists. split; [exact H1|]. split; [now apply Recv_EOF with (d := [])|].
  simpl. auto.
Qed.

(** *** Event boundaries *)

Lemma pendingError_ext (s s' : streamReader) :
  errAccumulator s = errAccumulator s' ->
  pendingError Unmarshal s = pendingError Unmarshal s'.
Proof. intro H. unfold pendingError, unmarshalError. now rewrite H. Qed.

(** The turn that reads a blank line. *)
Lemma iteration_boundary (s : streamReader) (c : N) (rawLine : bytes) (rd : Reader) :
  ReadBytes (reader s) = (rawLine, None, rd) ->
  TrimRight rawLine lit_crlf = [] ->
  iteration Unmarshal s c =
  match pendingError Unmarshal s with
  | Some respErr => Return [] (Some (APIErrorPtr (Error respErr))) (set_reader s rd)
  | None =>
      if Nat.ltb 0 (length (buffer_Bytes s))
      then Return (buffer_Bytes s) None (buffer_Reset (set_reader s rd))
      else if (emptyMessagesLimit s <? (c + 1) mod uint_max)%N
           then Return [] (Some ErrTooManyEmptyStreamMessages) (set_reader s rd)
           else Continue (set_reader s rd) ((c + 1) mod uint_max)%N
  end.
Proof.
  intros HR Hl. unfold iteration. rewrite HR, Hl. cbn [length Nat.eqb].
  rewrite (pendingError_ext (set_reader s rd) s) by reflexivity.
  reflexivity.
Qed.

Lemma cut_at_eol (k : nat) (rest : bytes) :
  cut_at nl (eol k ++ rest) = Some (eol k, rest).
Proof. now apply (cut_at_line [] [] rest k). Qed.

Lemma blanks_app (a b : list nat) : blanks (a ++ b) = blanks a ++ blanks b.
Proof. unfold blanks. now rewrite map_app, concat_app. Qed.

(** Blank lines met with an empty buffer and no error to report each add
    one to the counter, as long as the limit is not passed. *)
Lemma turns_blanks (ks : list nat) (s : streamReader) (c : N) (rest : bytes) :
  pending (reader s) = blanks ks ++ rest ->
  buffer_Bytes s = [] ->
  pendingError Unmarshal s = None ->
  (c + N.of_nat (length ks) <= emptyMessagesLimit s)%N ->
  (emptyMessagesLimit s < uint_max)%N ->
  turns Unmarshal (length ks) s c =
  Some (set_reader s {| pending := rest; srcErr := srcErr (reader s);
                        reads := reads (reader s) + length ks |},
        (c + N.of_nat (length ks))%N).
Proof.
  revert s c; induction ks as [|k ks IH]; intros s c Hp Hb He Hc Hl.
  - simpl in *. rewrite N.add_0_r, Nat.add_0_r. f_equal. f_equal.
    destruct s as [l f r [p e n] a d]; simpl in *. now subst.
  - assert (Hc' : (c + 1 + N.of_nat (length ks) <= emptyMessagesLimit s)%N)
      by (cbn [length] in Hc; lia).
    clear Hc. cbn [length turns].
    assert (HR : ReadBytes (reader s) =
                 (eol k, None, {| pending := blanks ks ++ rest;
                                  srcErr := srcErr (reader s);
                                  reads := S (reads (reader s)) |})).
    { apply ReadBytes_line. rewrite Hp. unfold blanks. simpl.
      rewrite <- app_assoc. apply cut_at_eol. }
    rewrite (iteration_boundary s c _ _ HR (TrimRight_eol k)), He, Hb.
    cbn [length Nat.ltb Nat.leb].
    assert (Hle : (c + 1 <= emptyMessagesLimit s)%N) by lia.
    assert (Hmod : ((c + 1) mod uint_max = c + 1)%N).
    { apply N.mod_small. lia. }
    rewrite Hmod. clear Hmod.
    assert (Hlt : (emptyMessagesLimit s <? c + 1)%N = false).
    { now apply N.ltb_ge. }
    rewrite Hlt, IH; try assumption; try reflexivity.
    rewrite Nat2N.inj_succ. unfold set_reader.
    cbn [reader srcErr reads pending].
    f_equal. f_equal; [|lia].
    f_equal. f_equal. lia.
Qed.

Lemma skipn_next (A : Type) (l : list A) (k : nat) :
  k < length l -> exists x, skipn k l = x :: skipn (S k) l.
Proof.
  revert k; induction l as [|a l IH]; intros k Hk; simpl in Hk; [lia|].
  destruct k as [|k]; [now exists a|].
  destruct (IH k) as [x Hx]; [lia|]. now exists x.
Qed.

(** The stream a pull has before it after [k] blank lines of its input. *)
Lemma pull_blanks (st : streamReader) (ks : list nat) (rest : bytes) (k : nat) :
  buffer_Bytes st = [] ->
  pendingError Unmarshal st = None ->
  pending (reader st) = blanks ks ++ rest ->
  (emptyMessagesLimit st < uint_max)%N ->
  k <= length ks ->
  (N.of_nat k <= emptyMessagesLimit st)%N ->
  turns Unmarshal k (prepare st) 0%N =
  Some (set_reader (prepare st)
          {| pending := blanks (skipn k ks) ++ rest;
             srcErr := srcErr (reader st);
             reads := reads (reader st) + k |},
        N.of_nat k).
Proof.
  intros Hb He Hp Hl Hk Hc.
  destruct (prepare_flags st) as (_ & _ & P3 & P4 & P5).
  pose proof (turns_blanks (firstn k ks) (prepare st) 0%N
                           (blanks (skipn k ks) ++ rest)) as H.
  rewrite length_firstn, Nat.min_l, prepare_reader, N.add_0_l in H by exact Hk.
  apply H.
  - rewrite Hp, app_assoc, <- blanks_app. now rewrite firstn_skipn.
  - congruence.
  - now rewrite (pendingError_ext (prepare st) st).
  - now rewrite P3.
  - now rewrite P3.
Qed.

(** One pull over blank lines that pass the limit: the counter goes up by
    one per line, the pull returns the error at line limit+1, and the
    stream it leaves differs from the one it had only in the lines read. *)
Lemma pull_past_the_limit
      (st : streamReader) (ks : list nat) (rest : bytes) :
  isFinished st = false ->
  buffer_Bytes st = [] ->
  pendingError Unmarshal st = None ->
  pending (reader st) = blanks ks ++ rest ->
  (emptyMessagesLimit st + 1 < uint_max)%N ->
  N.to_nat (emptyMessagesLimit st) < length ks ->
  (forall k, k <= N.to_nat (emptyMessagesLimit st) ->
     exists s, turns Unmarshal k (prepare st) 0%N = Some (s, N.of_nat k) /\
               pending (reader s) = blanks (skipn k ks) ++ rest) /\
  exists st',
    RecvRaw Unmarshal st = Some ([], Some ErrTooManyEmptyStreamMessages, st') /\
    Recv zeroT Unmarshal st = Some (zeroT, Some ErrTooManyEmptyStreamMessages, st') /\
    pending (reader st') =
      blanks (skipn (S (N.to_nat (emptyMessagesLimit st))) ks) ++ rest /\
    reads (reader st') = reads (reader st) + S (N.to_nat (emptyMessagesLimit st)) /\
    isFinished st' = false /\
    (length ks = S (N.to_nat (emptyMessagesLimit st)) -> rest = [] ->
     srcErr (reader st) = io_EOF ->
     exists stF, RecvRaw Unmarshal st' = Some ([], Some io_EOF, stF) /\
                 isFinished stF = true) /\
    buffer_Bytes st' = [] /\
    errAccumulator st' = errAccumulator st /\
    emptyMessagesLimit st' = emptyMessagesLimit st.
Proof.
  intros Hf Hb He Hp Hl Hn.
  set (L := N.to_nat (emptyMessagesLimit st)) in *.
  assert (Hl' : (emptyMessagesLimit st < uint_max)%N) by lia.
  assert (HL : N.of_nat L = emptyMessagesLimit st) by apply N2Nat.id.
  split.
  - intros k Hk. eexists. split.
    + apply (pull_blanks st ks rest k); auto; lia.
    + reflexivity.
  - pose proof (pull_blanks st ks rest L Hb He Hp Hl' (Nat.lt_le_incl _ _ Hn)) as Ht.
    rewrite HL in Ht. specialize (Ht (N.le_refl _)).
    destruct (skipn_next nat ks L Hn) as [x Hx].
    destruct (prepare_flags st) as (P1 & _ & P3 & P4 & P5).
    set (sL := set_reader (prepare st)
                 {| pending := blanks (skipn L ks) ++ rest;
                    srcErr := srcErr (reader st);
                    reads := reads (reader st) + L |}) in *.
    set (rd := {| pending := blanks (skipn (S L) ks) ++ rest;
                  srcErr := srcErr (reader st);
                  reads := S (reads (reader st) + L) |}).
    assert (HR : ReadBytes (reader sL) = (eol x, None, rd)).
    { apply (ReadBytes_line (reader sL) (eol x) (pending rd)).
      simpl. rewrite Hx. unfold blanks. simpl.
      rewrite <- app_assoc. apply cut_at_eol. }
    pose proof (iteration_boundary sL (emptyMessagesLimit st) _ _ HR
                                   (TrimRight_eol x)) as Hi.
    rewrite (pendingError_ext sL st), He in Hi by (simpl; exact P4).
    replace (buffer_Bytes sL) with (buffer_Bytes st) in Hi by (symmetry; exact P5).
    rewrite Hb in Hi. cbn [length Nat.ltb Nat.leb] in Hi.
    replace (emptyMessagesLimit sL) with (emptyMessagesLimit st) in Hi
      by (symmetry; exact P3).
    rewrite N.mod_small in Hi by exact Hl.
    assert (Hlt : (emptyMessagesLimit st <? emptyMessagesLimit st + 1)%N = true)
      by (apply N.ltb_lt; lia).
    rewrite Hlt in Hi.
    assert (H1 := RecvRaw_turns _ Unmarshal L st _ _ _ _ _ Hf Ht Hi).
    exists (set_reader sL rd). split; [exact H1|].
    split; [now apply Recv_error with (d := [])|].
    split; [reflexivity|]. split; [simpl; lia|].
    split; [simpl; congruence|].
    split; [|split; [|split; [exact P4 | exact P3]]];
      [|change (buffer_Bytes (prepare st) = []); now rewrite P5].
    intros Hlen -> Heof.
    assert (Hnil : pending rd = []).
    { change (pending rd) with (blanks (skipn (S L) ks) ++ []).
      rewrite skipn_all2 by lia. reflexivity. }
    set (s' := set_reader sL rd) in *.
    assert (HR' : ReadBytes (reader (prepare s')) =
                  ([], Some io_EOF,
                   {| pending := []; srcErr := srcErr rd; reads := S (reads rd) |})).
    { rewrite prepare_reader. unfold ReadBytes. simpl reader.
      rewrite Hnil. simpl. now rewrite Heof. }
    pose proof (iteration_eof (prepare s') 0%N _ _ HR') as Hi'.
    destruct (prepare_flags s') as (Q1 & _ & _ & _ & Q5).
    rewrite Q5 in Hi'.
    replace (buffer_Bytes s') with (buffer_Bytes st) in Hi' by (symmetry; exact P5).
    rewrite Hb in Hi'. simpl in Hi'.
    assert (Hf' : isFinished s' = false) by (simpl; congruence).
    assert (Ht' : turns Unmarshal 0 (prepare s') 0%N = Some (prepare s', 0%N))
      by reflexivity.
    eexists. split.
    + exact (RecvRaw_turns _ Unmarshal 0 s' _ _ _ _ _ Hf' Ht' Hi').
    + reflexivity.
Qed.

(** The count is the pull's own: the next pull starts at zero, so every
    further limit+1 blank lines give the error again. *)
Lemma pulls_past_the_limit (m : nat) :
  forall (st : streamReader) (ks : list nat) (rest : bytes),
  isFinished st = false ->
  buffer_Bytes st = [] ->
  pendingError Unmarshal st = None ->
  pending (reader st) = blanks ks ++ rest ->
  (emptyMessagesLimit st + 1 < uint_max)%N ->
  m * S (N.to_nat (emptyMessagesLimit st)) <= length ks ->
  exists stm,
    pulls Unmarshal m st =
      Some (repeat ([], Some ErrTooManyEmptyStreamMessages) m, stm) /\
    pending (reader stm) =
      blanks (skipn (m * S (N.to_nat (emptyMessagesLimit st))) ks) ++ rest /\
    reads (reader stm) =
      reads (reader st) + m * S (N.to_nat (emptyMessagesLimit st)) /\
    isFinished stm = false.
Proof.
  induction m as [|m IH]; intros st ks rest Hf Hb He Hp Hl Hn.
  - exists st. simpl. rewrite Nat.add_0_r. auto.
  - set (L := N.to_nat (emptyMessagesLimit st)) in *.
    assert (HL : L < length ks) by (simpl in Hn; lia).
    destruct (pull_past_the_limit st ks rest Hf Hb He Hp Hl HL)
      as (_ & st' & H1 & _ & H3 & H4 & H5 & _ & H7 & H8 & H9).
    fold L in H3, H4.
    destruct (IH st' (skipn (S L) ks) rest) as (stm & J1 & J2 & J3 & J4).
    + exact H5.
    + exact H7.
    + now rewrite (pendingError_ext st' st).
    + exact H3.
    + now rewrite H9.
    + rewrite H9. fold L. rewrite length_skipn. simpl in Hn. lia.
    + rewrite H9 in J2, J3. fold L in J2, J3.
      exists stm. split; [|split; [|split]].
      * cbn [pulls repeat]. now rewrite H1, J1.
      * rewrite J2, skipn_skipn.
        replace (m * S L + S L) with (S m * S L) by (simpl; lia). reflexivity.
      * rewrite J3, H4. simpl. lia.
      * exact J4.
Qed.

(** C5: on an input of blank lines read with an empty data buffer and no
    error to report, every blank line up to the limit adds one to the
    counter and the loop goes on; the pull returns
    [ErrTooManyEmptyStreamMessages], which [Recv] hands on as it is, at the
    blank line that takes the counter past the limit, having read exactly
    that many lines.  The stream is not finished by it: when the input
    ends there the next pull returns [io.EOF], and when it goes on the
    count starts again, so that [m] times limit+1 blank lines make [m]
    successive pulls return the error, each after limit+1 lines. *)
Theorem too_many_empty_messages
        (st : streamReader) (ks : list nat) (rest : bytes) :
  isFinished st = false ->
  buffer_Bytes st = [] ->
  pendingError Unmarshal st = None ->
  pending (reader st) = blanks ks ++ rest ->
  (emptyMessagesLimit st + 1 < uint_max)%N ->
  N.to_nat (emptyMessagesLimit st) < length ks ->
  (forall k, k <= N.to_nat (emptyMessagesLimit st) ->
     exists s, turns Unmarshal k (prepare st) 0%N = Some (s, N.of_nat k) /\
               pending (reader s) = blanks (skipn k ks) ++ rest) /\
  (exists st',
    RecvRaw Unmarshal st = Some ([], Some ErrTooManyEmptyStreamMessages, st') /\
    Recv zeroT Unmarshal st = Some (zeroT, Some ErrTooManyEmptyStreamMessages, st') /\
    pending (reader st') =
      blanks (skipn (S (N.to_nat (emptyMessagesLimit st))) ks) ++ rest /\
    reads (reader st') = reads (reader st) + S (N.to_nat (emptyMessagesLimit st)) /\
    isFinished st' = false /\
    (length ks = S (N.to_nat (emptyMessagesLimit st)) -> rest = [] ->
     srcErr (reader st) = io_EOF ->
     exists stF, RecvRaw Unmarshal st' = Some ([], Some io_EOF, stF) /\
                 isFinished stF = true)) /\
  (forall m, m * S (N.to_nat (emptyMessagesLimit st)) <= length ks ->
     exists stm,
       pulls Unmarshal m st =
         Some (repeat ([], Some ErrTooManyEmptyStreamMessages) m, stm) /\
       pending (reader stm) =
         blanks (skipn (m * S (N.to_nat (emptyMessagesLimit st))) ks) ++ rest /\
       reads (reader stm) =
         reads (reader st) + m * S (N.to_nat (emptyMessagesLimit st)) /\
       isFinished stm = false).
Proof.
  intros Hf Hb He Hp Hl Hn.
  destruct (pull_past_the_limit st ks rest Hf Hb He Hp Hl Hn)
    as (H0 & st' & H1 & H2 & H3 & H4 & H5 & H6 & _).
  split; [exact H0|]. split.
  - exists st'. repeat (split; [assumption|]). exact H6.
  - intros m Hm. now apply pulls_past_the_limit.
Qed.

(** *** Data lines *)

Lemma data_payload_inv (p : bytes) :
  data_payload p = true ->
  payload_ok p = true /\ bytes_eqb p [] = false /\
  bytes_eqb p lit_DONE = false /\ bytes_eqb p lit_done = false.
Proof.
  unfold data_payload. intro H.
  repeat (apply andb_true_iff in H as [H ?]).
  repeat split; try assumption; now apply negb_true_iff.
Qed.

(** The turn that reads a data line with a payload to keep. *)
Lemma iteration_data (s : streamReader) (c : N) (rawLine p : bytes) (rd : Reader) :
  ReadBytes (reader s) = (rawLine, None, rd) ->
  TrimRight rawLine lit_crlf = lit_data ++ p ->
  bytes_eqb p [] = false ->
  bytes_eqb p lit_DONE = false -> bytes_eqb p lit_done = false ->
  iteration Unmarshal s c =
  Continue (set_dataBuffer (set_reader s rd) (Some (joined (buffer_Bytes s) p))) c.
Proof.
  intros HR Hl H0 H1 H2. unfold iteration. rewrite HR, Hl.
  change (Nat.eqb (length (lit_data ++ p)) 0) with false. cbv iota.
  rewrite HasPrefix_app, TrimPrefix_app, H0, H1, H2. cbn [orb].
  change (buffer_Bytes (set_reader s rd)) with (buffer_Bytes s).
  unfold joined. destruct (buffer_Bytes s) as [|b0 b] eqn:E.
  - cbn [length Nat.ltb Nat.leb]. unfold buffer_Write.
    change (buffer_Bytes (set_reader s rd)) with (buffer_Bytes s).
    now rewrite E.
  - cbn [length Nat.ltb Nat.leb]. unfold buffer_Write at 1.
    f_equal. unfold buffer_Write, buffer_Bytes at 1. cbn [dataBuffer set_dataBuffer].
    change (buffer_Bytes (set_reader s rd)) with (buffer_Bytes s).
    now rewrite E.
Qed.

Lemma dataLine_read (r : Reader) (p rest : bytes) (k : nat) :
  payload_ok p = true ->
  pending r = dataLine p k ++ rest ->
  ReadBytes r = (dataLine p k, None,
                 {| pending := rest; srcErr := srcErr r; reads := S (reads r) |}) /\
  TrimRight (dataLine p k) lit_crlf = lit_data ++ p.
Proof.
  intros Hp Hr. split.
  - apply ReadBytes_line. rewrite Hr. now apply cut_at_line.
  - apply TrimRight_line; [reflexivity | discriminate | assumption].
Qed.

Lemma stream_eta (s : streamReader) :
  set_dataBuffer
    (set_reader s {| pending := pending (reader s); srcErr := srcErr (reader s);
                     reads := reads (reader s) |})
    (dataBuffer s) = s.
Proof. now destruct s as [l f r [p e n] a d]. Qed.

(** Data lines in a row go into the data buffer one after the other. *)
Lemma turns_dataLines (items : list (bytes * nat)) (s : streamReader) (c : N)
      (b rest : bytes) :
  forallb data_payload (map fst items) = true ->
  dataBuffer s = Some b ->
  pending (reader s) = dataLines items ++ rest ->
  turns Unmarshal (length items) s c =
  Some (set_dataBuffer
          (set_reader s {| pending := rest; srcErr := srcErr (reader s);
                           reads := reads (reader s) + length items |})
          (Some (fold_left joined (map fst items) b)),
        c).
Proof.
  revert s b; induction items as [|[p k] items IH]; intros s b Hall Hb Hp.
  - simpl in *. rewrite Nat.add_0_r, <- Hp, <- Hb. now rewrite stream_eta.
  - cbn [map fst forallb] in Hall. apply andb_true_iff in Hall as [Hd Hall].
    apply data_payload_inv in Hd as (Hok & H0 & H1 & H2).
    unfold dataLines in Hp. cbn [map concat fst snd] in Hp.
    rewrite <- app_assoc in Hp.
    destruct (dataLine_read (reader s) p _ k Hok Hp) as [HR Hl].
    cbn [length turns].
    rewrite (iteration_data s c _ p _ HR Hl H0 H1 H2).
    rewrite (IH _ (joined b p)); try assumption; try reflexivity.
    + unfold set_dataBuffer, set_reader.
      cbn [reader srcErr reads pending emptyMessagesLimit isFinished
           receivedDone errAccumulator dataBuffer map fst fold_left].
      now rewrite Nat.add_succ_r.
    + cbn [dataBuffer set_dataBuffer]. unfold buffer_Bytes. now rewrite Hb.
Qed.

Lemma fold_joined_nonempty (ps : list bytes) (b : bytes) :
  b <> [] ->
  fold_left joined ps b = b ++ concat (map (fun p => nl :: p) ps).
Proof.
  revert b; induction ps as [|p ps IH]; intros b Hb; simpl.
  - now rewrite app_nil_r.
  - rewrite IH.
    + unfold joined. destruct b; [contradiction|].
      now rewrite <- !app_assoc.
    + unfold joined. destruct b; [contradiction|]. discriminate.
Qed.

Lemma joinLines_cons (p : bytes) (ps : list bytes) :
  joinLines (p :: ps) = p ++ concat (map (fun q => nl :: q) ps).
Proof.
  revert p; induction ps as [|q ps IH]; intro p.
  - simpl. now rewrite app_nil_r.
  - change (joinLines (p :: q :: ps)) with (p ++ [nl] ++ joinLines (q :: ps)).
    rewrite IH. reflexivity.
Qed.

Lemma fold_joined_joinLines (ps : list bytes) :
  forallb data_payload ps = true ->
  fold_left joined ps [] = joinLines ps.
Proof.
  destruct ps as [|p ps]; [reflexivity|].
  intro H. cbn [forallb] in H. apply andb_true_iff in H as [Hd _].
  apply data_payload_inv in Hd as (_ & H0 & _).
  cbn [fold_left]. change (joined [] p) with p.
  rewrite joinLines_cons. apply fold_joined_nonempty.
  intros ->. discriminate.
Qed.

Lemma prepare_dataBuffer (s : streamReader) :
  dataBuffer (prepare s) = Some (buffer_Bytes s).
Proof. unfold prepare, buffer_Bytes. destruct (dataBuffer s) eqn:E; simpl; auto. Qed.

(** C7: in any pull, data lines with payloads to keep that are read one
    after the other into an empty data buffer and followed by a blank line
    give one frame at that blank line: the payloads in order with one
    newline between neighbours.  The frame is returned with a nil error and
    the data buffer is empty afterwards. *)
Theorem multi_line_data_is_one_frame
        (st s : streamReader) (n : nat) (c : N)
        (items : list (bytes * nat)) (k : nat) (rest : bytes) :
  isFinished st = false ->
  turns Unmarshal n (prepare st) 0%N = Some (s, c) ->
  dataBuffer s = Some [] ->
  pendingError Unmarshal s = None ->
  forallb data_payload (map fst items) = true ->
  items <> [] ->
  pending (reader s) = dataLines items ++ eol k ++ rest ->
  exists st',
    RecvRaw Unmarshal st = Some (joinLines (map fst items), None, st') /\
    dataBuffer st' = Some [] /\
    pending (reader st') = rest /\
    reads (reader st') = reads (reader s) + length items + 1 /\
    isFinished st' = false /\
    errAccumulator st' = errAccumulator s.
Proof.
  intros Hf Ht0 Hb He Hall Hne Hp.
  destruct (pull_turn_flags n st s c Ht0) as (F1 & _).
  pose proof (turns_dataLines items s c [] (eol k ++ rest) Hall Hb Hp) as Ht.
  rewrite (fold_joined_joinLines _ Hall) in Ht.
  rewrite <- (turns_app _ (length items) _ _ _ _ Ht0) in Ht.
  set (frame := joinLines (map fst items)) in *.
  assert (Hframe : frame <> []).
  { subst frame. destruct items as [|[p k0] items]; [contradiction|].
    cbn [map fst forallb] in Hall. apply andb_true_iff in Hall as [Hd _].
    apply data_payload_inv in Hd as (_ & H0 & _).
    cbn [map fst]. rewrite joinLines_cons.
    destruct p; [discriminate|]. discriminate. }
  match type of Ht with _ = Some (?x, _) => set (sK := x) in * end.
  set (rd := {| pending := rest; srcErr := srcErr (reader s);
                reads := S (reads (reader s) + length items) |}).
  assert (HR : ReadBytes (reader sK) = (eol k, None, rd)).
  { apply (ReadBytes_line (reader sK) (eol k) rest). apply cut_at_eol. }
  pose proof (iteration_boundary sK c _ _ HR (TrimRight_eol k)) as Hi.
  rewrite (pendingError_ext sK s), He in Hi by reflexivity.
  change (buffer_Bytes sK) with frame in Hi.
  assert (Hlen : Nat.ltb 0 (length frame) = true)
    by (destruct frame; [contradiction | reflexivity]).
  rewrite Hlen in Hi.
  exists (buffer_Reset (set_reader sK rd)).
  split; [exact (RecvRaw_turns _ Unmarshal _ st _ _ _ _ _ Hf Ht Hi)|].
  simpl. repeat split; try congruence. lia.
Qed.

(** *** Error lines *)

(** The turn that reads an error line: its payload goes to the end of the
    error accumulator and nothing else changes. *)
Lemma iteration_error (s : streamReader) (c : N) (rawLine : bytes) (rd : Reader) :
  ReadBytes (reader s) = (rawLine, None, rd) ->
  HasPrefix (TrimRight rawLine lit_crlf) lit_error = true ->
  iteration Unmarshal s c =
  Continue (set_errAccumulator (set_reader s rd)
              (errAccumulator s ++ TrimPrefix (TrimRight rawLine lit_crlf) lit_error))
           c.
Proof.
  intros HR Hp. unfold iteration. rewrite HR.
  pose proof (HasPrefix_split _ _ Hp) as Hs.
  destruct (TrimRight rawLine lit_crlf) as [|x line] eqn:E; [discriminate|].
  cbn [length Nat.eqb].
  assert (Hd : HasPrefix (x :: line) lit_data = false).
  { rewrite Hs. reflexivity. }
  now rewrite Hd, Hp.
Qed.

Lemma errorLine_read (r : Reader) (p rest : bytes) (k : nat) :
  payload_ok p = true ->
  pending r = errorLine p k ++ rest ->
  ReadBytes r = (errorLine p k, None,
                 {| pending := rest; srcErr := srcErr r; reads := S (reads r) |}) /\
  TrimRight (errorLine p k) lit_crlf = lit_error ++ p.
Proof.
  intros Hp Hr. split.
  - apply ReadBytes_line. rewrite Hr. now apply cut_at_line.
  - apply TrimRight_line; [reflexivity | discriminate | assumption].
Qed.

Lemma stream_eta_acc (s : streamReader) :
  set_errAccumulator
    (set_reader s {| pending := pending (reader s); srcErr := srcErr (reader s);
                     reads := reads (reader s) |})
    (errAccumulator s) = s.
Proof. now destruct s as [l f r [p e n] a d]. Qed.

(** Error lines in a row pile their payloads up in the accumulator. *)
Lemma turns_errorLines (items : list (bytes * nat)) (s : streamReader) (c : N)
      (rest : bytes) :
  forallb payload_ok (map fst items) = true ->
  pending (reader s) = errorLines items ++ rest ->
  turns Unmarshal (length items) s c =
  Some (set_errAccumulator
          (set_reader s {| pending := rest; srcErr := srcErr (reader s);
                           reads := reads (reader s) + length items |})
          (errAccumulator s ++ concat (map fst items)),
        c).
Proof.
  revert s; induction items as [|[p k] items IH]; intros s Hall Hp.
  - simpl in *. rewrite Nat.add_0_r, app_nil_r, <- Hp. now rewrite stream_eta_acc.
  - cbn [map fst forallb] in Hall. apply andb_true_iff in Hall as [Hok Hall].
    unfold errorLines in Hp. cbn [map concat fst snd] in Hp.
    rewrite <- app_assoc in Hp.
    destruct (errorLine_read (reader s) p _ k Hok Hp) as [HR Hl].
    cbn [length turns].
    assert (Hpre : HasPrefix (TrimRight (errorLine p k) lit_crlf) lit_error = true)
      by (rewrite Hl; apply HasPrefix_app).
    rewrite (iteration_error s c _ _ HR Hpre), Hl, TrimPrefix_app.
    rewrite IH; try assumption; try reflexivity.
    unfold set_errAccumulator, set_reader.
    cbn [reader srcErr reads pending emptyMessagesLimit isFinished
         receivedDone errAccumulator dataBuffer map fst concat].
    now rewrite Nat.add_succ_r, <- app_assoc.
Qed.

(** C8: in any pull, the payloads of error lines are appended to the error
    accumulator in the order read, and when a blank line is then read and
    the accumulated bytes decode to an error response, the pull returns the
    error of that response as its error: [Recv] returns it with no message.
    The accumulator keeps its bytes. *)
Theorem error_lines_surface_at_boundary
        (st s0 : streamReader) (n : nat) (c : N)
        (items : list (bytes * nat)) (k : nat) (rest : bytes)
        (respErr : ErrorResponse) :
  isFinished st = false ->
  turns Unmarshal n (prepare st) 0%N = Some (s0, c) ->
  forallb payload_ok (map fst items) = true ->
  pending (reader s0) = errorLines items ++ eol k ++ rest ->
  errAccumulator s0 ++ concat (map fst items) <> [] ->
  Unmarshal ErrorResponsePtrT (errAccumulator s0 ++ concat (map fst items)) None
    = (Some respErr, None) ->
  exists s st',
    turns Unmarshal (n + length items) (prepare st) 0%N = Some (s, c) /\
    errAccumulator s = errAccumulator s0 ++ concat (map fst items) /\
    RecvRaw Unmarshal st = Some ([], Some (APIErrorPtr (Error respErr)), st') /\
    Recv zeroT Unmarshal st = Some (zeroT, Some (APIErrorPtr (Error respErr)), st') /\
    errAccumulator st' = errAccumulator s /\
    isFinished st' = false /\
    pending (reader st') = rest.
Proof.
  intros Hf Ht0 Hall Hp Hne Hdec.
  destruct (pull_turn_flags n st s0 c Ht0) as (F1 & _).
  pose proof (turns_errorLines items s0 c (eol k ++ rest) Hall Hp) as Ht.
  rewrite <- (turns_app _ (length items) _ _ _ _ Ht0) in Ht.
  match type of Ht with _ = Some (?x, _) => set (s := x) in * end.
  set (acc := errAccumulator s0 ++ concat (map fst items)) in *.
  set (rd := {| pending := rest; srcErr := srcErr (reader s0);
                reads := S (reads (reader s0) + length items) |}).
  assert (HR : ReadBytes (reader s) = (eol k, None, rd)).
  { apply (ReadBytes_line (reader s) (eol k) rest). apply cut_at_eol. }
  pose proof (iteration_boundary s c _ _ HR (TrimRight_eol k)) as Hi.
  assert (Hpe : pendingError Unmarshal s = Some respErr).
  { unfold pendingError, unmarshalError.
    change (errAccumulator s) with acc.
    destruct acc as [|a acc']; [contradiction|].
    cbn [length Nat.eqb negb]. now rewrite Hdec. }
  rewrite Hpe in Hi.
  assert (H1 := RecvRaw_turns _ Unmarshal _ st _ _ _ _ _ Hf Ht Hi).
  exists s, (set_reader s rd). split; [exact Ht|]. split; [reflexivity|].
  split; [exact H1|]. split; [now apply Recv_error with (d := [])|].
  simpl. repeat split. congruence.
Qed.

(** *** Decoding a frame *)


(** *** Events, pull after pull *)

(** One pull over one event: the blank lines are counted from zero, the
    data lines fill the buffer and the closing blank line gives the
    frame.  The stream is left ready for the next event. *)
Lemma pull_event (st : streamReader) (e : event) (rest : bytes) :
  isFinished st = false ->
  buffer_Bytes st = [] ->
  pendingError Unmarshal st = None ->
  (emptyMessagesLimit st < uint_max)%N ->
  event_ok (emptyMessagesLimit st) e = true ->
  pending (reader st) = eventBytes e ++ rest ->
  exists st',
    RecvRaw Unmarshal st = Some (eventFrame e, None, st') /\
    isFinished st' = false /\
    buffer_Bytes st' = [] /\
    pendingError Unmarshal st' = None /\
    emptyMessagesLimit st' = emptyMessagesLimit st /\
    pending (reader st') = rest.
Proof.
  intros Hf Hb He Hl Hok Hp. destruct e as [ks items k']. unfold event_ok in Hok.
  cbn [ev_blanks ev_items ev_eol] in Hok.
  apply andb_true_iff in Hok as [Hok Hne]. apply andb_true_iff in Hok as [Hks Hall].
  apply N.leb_le in Hks. apply negb_true_iff, Nat.eqb_neq in Hne.
  unfold eventBytes in Hp. cbn [ev_blanks ev_items ev_eol] in Hp.
  unfold eventFrame. cbn [ev_items].
  destruct (prepare_flags st) as (P1 & _ & P3 & P4 & P5).
  rewrite <- !app_assoc in Hp.
  pose proof (pull_blanks st ks _ (length ks) Hb He Hp Hl (Nat.le_refl _) Hks) as Ht1.
  rewrite skipn_all in Ht1. change (blanks [] ++ ?x) with x in Ht1.
  match type of Ht1 with _ = Some (?x, _) => set (s1 := x) in * end.
  pose proof (turns_dataLines items s1 (N.of_nat (length ks)) []
                              (eol k' ++ rest) Hall) as Ht2.
  assert (Hd1 : dataBuffer s1 = Some []).
  { change (dataBuffer s1) with (dataBuffer (prepare st)).
    now rewrite prepare_dataBuffer, Hb. }
  specialize (Ht2 Hd1 eq_refl).
  rewrite (fold_joined_joinLines _ Hall) in Ht2.
  rewrite <- (turns_app _ (length items) _ _ _ _ Ht1) in Ht2.
  set (frame := joinLines (map fst items)) in *.
  assert (Hframe : frame <> []).
  { subst frame. destruct items as [|[p k0] items]; [now elim Hne|].
    cbn [map fst forallb] in Hall. apply andb_true_iff in Hall as [Hd _].
    apply data_payload_inv in Hd as (_ & H0 & _).
    cbn [map fst]. rewrite joinLines_cons.
    destruct p; [discriminate|]. discriminate. }
  match type of Ht2 with _ = Some (?x, _) => set (s2 := x) in * end.
  set (rd := {| pending := rest; srcErr := srcErr (reader s1);
                reads := S (reads (reader s1) + length items) |}).
  assert (HR : ReadBytes (reader s2) = (eol k', None, rd)).
  { apply (ReadBytes_line (reader s2) (eol k') rest). apply cut_at_eol. }
  pose proof (iteration_boundary s2 (N.of_nat (length ks)) _ _ HR
                                 (TrimRight_eol k')) as Hi.
  assert (Hpe : pendingError Unmarshal s2 = None)
    by (rewrite (pendingError_ext s2 st); [exact He | exact P4]).
  rewrite Hpe in Hi.
  change (buffer_Bytes s2) with frame in Hi.
  assert (Hlen : Nat.ltb 0 (length frame) = true)
    by (destruct frame; [contradiction | reflexivity]).
  rewrite Hlen in Hi.
  exists (buffer_Reset (set_reader s2 rd)).
  split; [exact (RecvRaw_turns _ Unmarshal _ st _ _ _ _ _ Hf Ht2 Hi)|].
  split; [simpl; congruence|]. split; [reflexivity|].
  split; [|split; [exact P3 | reflexivity]].
  rewrite (pendingError_ext _ st); [exact He | exact P4].
Qed.

(** C10: the counter of empty messages is a local of [processLines]: every
    pull starts its loop with the counter at zero.  So a run of events
    whose blank lines each stay within the limit is read frame by frame
    without [ErrTooManyEmptyStreamMessages], however many blank lines the
    events have between them. *)
Theorem empty_count_starts_afresh
        (st : streamReader) (es : list event) (rest : bytes) :
  isFinished st = false ->
  buffer_Bytes st = [] ->
  pendingError Unmarshal st = None ->
  (emptyMessagesLimit st < uint_max)%N ->
  forallb (event_ok (emptyMessagesLimit st)) es = true ->
  pending (reader st) = concat (map eventBytes es) ++ rest ->
  RecvRaw Unmarshal st =
    processLines_loop Unmarshal (S (length (pending (reader st)))) (prepare st) 0%N /\
  exists st',
    pulls Unmarshal (length es) st =
      Some (map (fun e => (eventFrame e, None)) es, st') /\
    pending (reader st') = rest /\
    isFinished st' = false.
Proof.
  intros Hf Hb He Hl Hall Hp. split.
  - unfold RecvRaw. rewrite Hf. apply processLines_prepare.
  - revert st Hf Hb He Hl Hall Hp.
    induction es as [|e es IH]; intros st Hf Hb He Hl Hall Hp.
    + exists st. simpl in *. auto.
    + cbn [forallb] in Hall. apply andb_true_iff in Hall as [Hok Hall].
      cbn [map concat] in Hp. rewrite <- app_assoc in Hp.
      destruct (pull_event st e _ Hf Hb He Hl Hok Hp)
        as (st1 & H1 & Hf1 & Hb1 & He1 & Hl1 & Hp1).
      rewrite <- Hl1 in Hl, Hall.
      destruct (IH st1 Hf1 Hb1 He1 Hl Hall Hp1) as (st' & H2 & Hp2 & Hf2).
      exists st'. cbn [length pulls map]. rewrite H1, H2. auto.
Qed.

(** *** The terminal marker and [IsComplete] *)

(** A turn that returns has set [receivedDone] only for a terminal line,
    and then together with [isFinished] and [io.EOF]. *)
Lemma iteration_Return (s s' : streamReader) (c : N) (d : bytes) (e : option error) :
  iteration Unmarshal s c = Return d e s' ->
  exists rawLine readErr,
    ReadBytes (reader s) = (rawLine, readErr, reader s') /\
    ((readErr = None /\ isDoneLine rawLine = true /\
      receivedDone s' = true /\ isFinished s' = true /\
      d = [] /\ e = Some io_EOF) \/
     (readErr = None /\ isDoneLine rawLine = false /\
      receivedDone s' = receivedDone s /\ isFinished s' = isFinished s) \/
     (readErr <> None /\ receivedDone s' = receivedDone s)).
Proof.
  unfold iteration.
  destruct (ReadBytes (reader s)) as [[rawLine readErr] rd] eqn:HR.
  intro H. exists rawLine, readErr. unfold isDoneLine.
  destruct readErr as [err|].
  - crack H; injection H as <- <- <-; (split; [reflexivity|]);
      right; right; (split; [discriminate | reflexivity]).
  - crack H; try discriminate; injection H as <- <- <-; (split; [reflexivity|]).
    all: try (match goal with
              | E : Nat.eqb (length ?l) 0 = true |- _ =>
                  destruct l; [|discriminate]
              end;
              right; left; repeat split; reflexivity).
    left.
    repeat match goal with
           | E : ?x = true |- context [?x] => rewrite E
           end.
    repeat split; reflexivity.
Qed.

Lemma lines_no_newline (s : bytes) :
  cut_at nl s = None -> s <> [] -> lines s = [s] /\ endsInNewline s = false.
Proof.
  induction s as [|c s IH]; intros H Hne; [contradiction|].
  simpl in H. destruct (Byte.eqb c nl) eqn:E; [discriminate|].
  destruct (cut_at nl s) as [[? ?]|] eqn:C; [discriminate|].
  cbn [lines]. rewrite E. destruct s as [|c' s].
  - simpl. now rewrite E.
  - destruct IH as [IH1 IH2]; [reflexivity | discriminate |].
    rewrite IH1. split; [reflexivity|]. exact IH2.
Qed.

Lemma wholeLines_cut (s : bytes) :
  wholeLines s = true -> s <> [] ->
  exists line rest, cut_at nl s = Some (line, rest) /\ wholeLines rest = true.
Proof.
  intros Hw Hne. unfold wholeLines in *.
  destruct (cut_at nl s) as [[line rest]|] eqn:C.
  - exists line, rest. split; [reflexivity|].
    rewrite (cut_at_lines _ _ _ C) in Hw. cbn [forallb] in Hw.
    now apply andb_true_iff in Hw as [_ Hw].
  - destruct (lines_no_newline s C Hne) as [Hl He].
    rewrite Hl in Hw. cbn [forallb] in Hw. rewrite He in Hw. discriminate.
Qed.

(** **** Without a terminal line [receivedDone] stays false *)

Lemma noDoneLine_read (r rd : Reader) (rawLine : bytes) (readErr : option error) :
  ReadBytes r = (rawLine, readErr, rd) ->
  noDoneLine (pending r) = true ->
  noDoneLine (pending rd) = true /\ (readErr = None -> isDoneLine rawLine = false).
Proof.
  unfold ReadBytes, noDoneLine.
  destruct (cut_at nl (pending r)) as [[l rest]|] eqn:C; intros H Hn.
  - injection H as <- <- <-. rewrite (cut_at_lines _ _ _ C) in Hn.
    cbn [forallb] in Hn. apply andb_true_iff in Hn as [Hl Hn].
    split; [exact Hn|]. intros _. now apply negb_true_iff.
  - injection H as <- <- <-. split; [reflexivity | discriminate].
Qed.

Lemma RecvRaw_keeps_quiet (st st' : streamReader) (d : bytes) (e : option error) :
  receivedDone st = false ->
  noDoneLine (pending (reader st)) = true ->
  RecvRaw Unmarshal st = Some (d, e, st') ->
  receivedDone st' = false /\ noDoneLine (pending (reader st')) = true.
Proof.
  intros Hr Hn. unfold RecvRaw. destruct (isFinished st).
  - intro H. injection H as <- <- <-. auto.
  - rewrite processLines_prepare.
    apply (processLines_loop_ind T Unmarshal
             (fun s _ => receivedDone s = false /\
                         noDoneLine (pending (reader s)) = true)
             (fun _ _ s' => receivedDone s' = false /\
                            noDoneLine (pending (reader s')) = true)).
    + intros s c s' c' [Hs1 Hs2] Hi.
      apply iteration_Continue in Hi as (raw & HR & _ & _ & Hrd & _).
      split; [congruence|]. now apply (noDoneLine_read _ _ _ _ HR).
    + intros s c d0 e0 s' [Hs1 Hs2] Hi.
      apply iteration_Return in Hi as (raw & rerr & HR & Hcases).
      destruct (noDoneLine_read _ _ _ _ HR Hs2) as [Hn' Hnd].
      split; [|exact Hn'].
      destruct Hcases as [(-> & Hd & _) | [(_ & _ & Hrd & _) | (_ & Hrd)]];
        [|congruence|congruence].
      rewrite Hnd in Hd by reflexivity. discriminate.
    + destruct (prepare_flags st) as (_ & P2 & _). rewrite prepare_reader.
      split; congruence.
Qed.

Lemma pulls_returns (n : nat) (st : streamReader) :
  exists rs st', pulls Unmarshal n st = Some (rs, st').
Proof.
  revert st; induction n as [|n IH]; intro st; simpl; [eauto|].
  destruct (RecvRaw_returns T Unmarshal st) as [[[d e] st1] H1]. rewrite H1.
  destruct (IH st1) as (rs & st' & H2). rewrite H2. eauto.
Qed.

Lemma pulls_keep_quiet (n : nat) (st st' : streamReader)
      (rs : list (bytes * option error)) :
  receivedDone st = false ->
  noDoneLine (pending (reader st)) = true ->
  pulls Unmarshal n st = Some (rs, st') ->
  receivedDone st' = false.
Proof.
  revert st rs; induction n as [|n IH]; simpl; intros st rs Hr Hn H.
  - now injection H as <- <-.
  - destruct (RecvRaw Unmarshal st) as [[[d e] st1]|] eqn:H1; [|discriminate].
    destruct (pulls Unmarshal n st1) as [[rs1 st2]|] eqn:H2; [|discriminate].
    injection H as <- <-.
    destruct (RecvRaw_keeps_quiet st st1 d e Hr Hn H1) as [Hr1 Hn1].
    exact (IH st1 rs1 Hr1 Hn1 H2).
Qed.

(** **** A terminal line is reached and sets [receivedDone] *)

Section TowardsDone.

(** The input from the terminal line on. *)
Variables dline rest : bytes.
Hypothesis dline_cut : cut_at nl (dline ++ rest) = Some (dline, rest).
Hypothesis dline_done : isDoneLine dline = true.

Lemma read_towards_done (r : Reader) (pre : bytes) :
  pending r = pre ++ dline ++ rest ->
  wholeLines pre = true ->
  exists rawLine rd,
    ReadBytes r = (rawLine, None, rd) /\
    ((pre = [] /\ rawLine = dline) \/
     (exists pre', pending rd = pre' ++ dline ++ rest /\
                   wholeLines pre' = true /\ length pre' < length pre)).
Proof.
  intros Hp Hw. destruct pre as [|b pre].
  - simpl in Hp. eexists; eexists. split.
    + apply ReadBytes_line. rewrite Hp. exact dline_cut.
    + left. auto.
  - destruct (wholeLines_cut (b :: pre) Hw) as (l & pre' & C & Hw');
      [discriminate|].
    eexists; eexists. split.
    + apply ReadBytes_line. rewrite Hp. apply cut_at_Some_app. exact C.
    + right. exists pre'. simpl pending. split; [reflexivity|].
      split; [exact Hw'|]. now apply cut_at_Some in C as (_ & C & _).
Qed.

(** One pull on an input that has a terminal line ahead: it reads that
    line and finishes, or it returns earlier, unfinished and nearer to
    that line. *)
Lemma pull_towards_done (st : streamReader) (pre : bytes) :
  isFinished st = false ->
  wholeLines pre = true ->
  pending (reader st) = pre ++ dline ++ rest ->
  exists d e st',
    RecvRaw Unmarshal st = Some (d, e, st') /\
    ((d = [] /\ e = Some io_EOF /\ receivedDone st' = true /\
      isFinished st' = true) \/
     (isFinished st' = false /\
      exists pre', pending (reader st') = pre' ++ dline ++ rest /\
                   wholeLines pre' = true /\ length pre' < length pre)).
Proof.
  intros Hf Hw Hp.
  destruct (RecvRaw_returns T Unmarshal st) as [[[d e] st'] H].
  exists d, e, st'. split; [exact H|].
  unfold RecvRaw in H. rewrite Hf, processLines_prepare in H.
  revert H.
  apply (processLines_loop_ind T Unmarshal
           (fun s _ => isFinished s = false /\
              exists pre', pending (reader s) = pre' ++ dline ++ rest /\
                           wholeLines pre' = true /\ length pre' <= length pre)
           (fun d e s' =>
              (d = [] /\ e = Some io_EOF /\ receivedDone s' = true /\
               isFinished s' = true) \/
              (isFinished s' = false /\
               exists pre', pending (reader s') = pre' ++ dline ++ rest /\
                            wholeLines pre' = true /\ length pre' < length pre))).
  - intros s c s' c' (Hs & pre' & Hp' & Hw' & Hl) Hi.
    apply iteration_Continue in Hi as (raw & HR & Hnd & Hfin & _).
    destruct (read_towards_done (reader s) pre' Hp' Hw')
      as (raw' & rd & HR' & Hcase).
    rewrite HR in HR'. injection HR' as -> <-.
    split; [congruence|].
    destruct Hcase as [(_ & ->) | (pre'' & Hp'' & Hw'' & Hl')].
    + rewrite dline_done in Hnd. discriminate.
    + exists pre''. repeat split; auto. lia.
  - intros s c d0 e0 s' (Hs & pre' & Hp' & Hw' & Hl) Hi.
    apply iteration_Return in Hi as (raw & rerr & HR & Hcases).
    destruct (read_towards_done (reader s) pre' Hp' Hw')
      as (raw' & rd & HR' & Hcase).
    rewrite HR in HR'. injection HR' as -> -> <-.
    destruct Hcases as [(_ & _ & H1 & H2 & H3 & H4)
                       | [(_ & Hnd & _ & Hfin) | (Hne & _)]].
    + left. auto.
    + right. split; [congruence|].
      destruct Hcase as [(_ & ->) | (pre'' & Hp'' & Hw'' & Hl')].
      * rewrite dline_done in Hnd. discriminate.
      * exists pre''. repeat split; auto. lia.
    + now elim Hne.
  - destruct (prepare_flags st) as (P1 & _). rewrite prepare_reader.
    split; [congruence|]. exists pre. auto.
Qed.

(** Pull after pull, the terminal line is reached: some pull returns
    [io.EOF] with [receivedDone] and [isFinished] set. *)
Lemma pulls_reach_done (bound : nat) (st : streamReader) (pre : bytes) :
  length pre <= bound ->
  isFinished st = false ->
  wholeLines pre = true ->
  pending (reader st) = pre ++ dline ++ rest ->
  exists n rs st',
    pulls Unmarshal (S n) st = Some (rs ++ [([], Some io_EOF)], st') /\
    receivedDone st' = true /\ isFinished st' = true.
Proof.
  revert st pre; induction bound as [|bound IH]; intros st pre Hb Hf Hw Hp;
    destruct (pull_towards_done st pre Hf Hw Hp)
      as (d & e & st1 & H1 & [(-> & -> & Hr & Hfin)
                             | (Hf1 & pre' & Hp' & Hw' & Hl)]).
  - exists 0, [], st1. simpl. rewrite H1. auto.
  - lia.
  - exists 0, [], st1. simpl. rewrite H1. auto.
  - destruct (IH st1 pre') as (n & rs & st' & H2 & Hr & Hfin); auto; [lia|].
    exists (S n), ((d, e) :: rs), st'.
    change (pulls Unmarshal (S (S n)) st) with
      (match RecvRaw Unmarshal st with
       | None => None
       | Some (data, err, s1) =>
           match pulls Unmarshal (S n) s1 with
           | None => None
           | Some (rs, s2) => Some ((data, err) :: rs, s2)
           end
       end).
    rewrite H1, H2. auto.
Qed.

End TowardsDone.

(** **** A source that closes cleanly is used up *)

(** One pull on a source that closes with [io.EOF]: it returns [io.EOF] and
    finishes the stream, or it returns unfinished with less left to do. *)
Lemma pull_towards_eof (st : streamReader) :
  isFinished st = false ->
  srcErr (reader st) = io_EOF ->
  exists d e st',
    RecvRaw Unmarshal st = Some (d, e, st') /\
    srcErr (reader st') = io_EOF /\
    ((d = [] /\ e = Some io_EOF /\ isFinished st' = true) \/
     (isFinished st' = false /\ workLeft st' < workLeft st)).
Proof.
  intros Hf Hsrc.
  destruct (RecvRaw_returns T Unmarshal st) as [[[d e] st'] H].
  exists d, e, st'. split; [exact H|].
  unfold RecvRaw in H. rewrite Hf, processLines_prepare in H.
  revert H.
  apply (processLines_loop_ind T Unmarshal
           (fun s _ => isFinished s = false /\ srcErr (reader s) = io_EOF /\
              ((buffer_Bytes s = buffer_Bytes st /\
                pending (reader s) = pending (reader st)) \/
               length (pending (reader s)) < length (pending (reader st))))
           (fun d e s' =>
              srcErr (reader s') = io_EOF /\
              ((d = [] /\ e = Some io_EOF /\ isFinished s' = true) \/
               (isFinished s' = false /\ workLeft s' < workLeft st)))).
  - intros s c s' c' (Hs & He & Hm) Hi.
    apply iteration_Continue in Hi as (raw & HR & _ & Hfin & _).
    pose proof (ReadBytes_shorter _ _ _ HR) as Hlen.
    apply ReadBytes_ok_inv in HR as (_ & Hse & _).
    split; [congruence|]. split; [congruence|]. right.
    destruct Hm as [(_ & Hm) | Hm]; [rewrite Hm in Hlen|]; lia.
  - intros s c d0 e0 s' (Hs & He & Hm) Hi.
    destruct (ReadBytes (reader s)) as [[raw rerr] rd] eqn:HR.
    destruct rerr as [err|].
    + pose proof (ReadBytes_err_inv _ _ _ _ HR) as (Herr & Hp & Hse & _).
      rewrite He in Herr. subst err.
      rewrite (iteration_eof s c raw rd HR) in Hi.
      destruct (Nat.ltb 0 (length (buffer_Bytes s))) eqn:Hb;
        injection Hi as <- <- <-.
      * split; [simpl; congruence|]. right. split; [exact Hs|].
        unfold workLeft at 1. simpl. rewrite Hp. simpl.
        unfold workLeft. destruct Hm as [(Hbs & _) | Hm].
        -- rewrite <- Hbs, Hb. lia.
        -- lia.
      * split; [simpl; congruence|]. left. auto.
    + apply iteration_Return in Hi as (raw0 & rerr0 & HR0 & Hcases).
      rewrite HR in HR0. injection HR0 as <- <- Hrd.
      pose proof (ReadBytes_shorter _ _ _ HR) as Hlen.
      apply ReadBytes_ok_inv in HR as (_ & Hse & _).
      split; [congruence|].
      destruct Hcases as [(_ & _ & _ & H2 & H3 & H4)
                         | [(_ & _ & _ & Hfin) | (Hne & _)]].
      * left. auto.
      * right. split; [congruence|]. unfold workLeft. rewrite <- Hrd.
        destruct (Nat.ltb 0 (length (buffer_Bytes s')));
          destruct (Nat.ltb 0 (length (buffer_Bytes st)));
          destruct Hm as [(_ & Hm) | Hm]; try rewrite Hm in Hlen; lia.
      * now elim Hne.
  - destruct (prepare_flags st) as (P1 & _ & _ & _ & P5). rewrite prepare_reader.
    split; [congruence|]. split; [exact Hsrc|]. left. auto.
Qed.

(** Pull after pull such a source is used up: some pull returns [io.EOF]
    with [isFinished] set. *)
Lemma pulls_reach_eof (bound : nat) (st : streamReader) :
  workLeft st <= bound ->
  isFinished st = false ->
  srcErr (reader st) = io_EOF ->
  exists n rs st',
    pulls Unmarshal (S n) st = Some (rs ++ [([], Some io_EOF)], st') /\
    isFinished st' = true.
Proof.
  revert st; induction bound as [|bound IH]; intros st Hb Hf Hsrc;
    destruct (pull_towards_eof st Hf Hsrc)
      as (d & e & st1 & H1 & Hs1 & [(-> & -> & Hfin) | (Hf1 & Hl)]).
  - exists 0, [], st1. simpl. rewrite H1. auto.
  - lia.
  - exists 0, [], st1. simpl. rewrite H1. auto.
  - destruct (IH st1) as (n & rs & st' & H2 & Hfin); auto; [lia|].
    exists (S n), ((d, e) :: rs), st'.
    change (pulls Unmarshal (S (S n)) st) with
      (match RecvRaw Unmarshal st with
       | None => None
       | Some (data, err, s1) =>
           match pulls Unmarshal (S n) s1 with
           | None => None
           | Some (rs, s2) => Some ((data, err) :: rs, s2)
           end
       end).
    rewrite H1, H2. auto.
Qed.

Lemma doneLine_is_done (tok : bytes) (k : nat) (rest : bytes) :
  tok = lit_DONE \/ tok = lit_done ->
  cut_at nl (dataLine tok k ++ rest) = Some (dataLine tok k, rest) /\
  isDoneLine (dataLine tok k) = true.
Proof.
  intro Htok.
  assert (Hok : payload_ok tok = true) by (destruct Htok as [-> | ->]; reflexivity).
  split.
  - now apply cut_at_line.
  - unfold isDoneLine, dataLine.
    rewrite TrimRight_line by (try reflexivity; try discriminate; assumption).
    rewrite HasPrefix_app, TrimPrefix_app.
    destruct Htok as [-> | ->]; reflexivity.
Qed.

(** C2: [IsComplete] is true only when the terminal marker was read.  On
    an input none of whose lines is a terminal data line it is false after
    any number of pulls, and when the source closes cleanly some pull
    returns [io.EOF] and finishes the stream with [IsComplete] still false;
    on an input that has, after whole lines, a data line with the payload
    [[DONE]] or [done], some pull returns [io.EOF] having read that line,
    and [IsComplete] is true after it. *)
Theorem IsComplete_tells_done_from_eof (st : streamReader) :
  isFinished st = false ->
  receivedDone st = false ->
  (noDoneLine (pending (reader st)) = true ->
   (forall n, exists rs st',
      pulls Unmarshal n st = Some (rs, st') /\ IsComplete st' = false) /\
   (srcErr (reader st) = io_EOF ->
    exists n rs st',
      pulls Unmarshal (S n) st = Some (rs ++ [([], Some io_EOF)], st') /\
      isFinished st' = true /\ IsComplete st' = false)) /\
  (forall (pre tok rest : bytes) (k : nat),
     wholeLines pre = true ->
     tok = lit_DONE \/ tok = lit_done ->
     pending (reader st) = pre ++ dataLine tok k ++ rest ->
     exists n rs st',
       pulls Unmarshal (S n) st = Some (rs ++ [([], Some io_EOF)], st') /\
       IsComplete st' = true /\ isFinished st' = true).
Proof.
  intros Hf Hr. split.
  - intros Hn. split.
    + intro n. destruct (pulls_returns n st) as (rs & st' & H).
      exists rs, st'. split; [exact H|].
      exact (pulls_keep_quiet n st st' rs Hr Hn H).
    + intro Hsrc.
      destruct (pulls_reach_eof (workLeft st) st (Nat.le_refl _) Hf Hsrc)
        as (n & rs & st' & H & Hfin).
      exists n, rs, st'. split; [exact H|]. split; [exact Hfin|].
      exact (pulls_keep_quiet (S n) st st' _ Hr Hn H).
  - intros pre tok rest k Hw Htok Hp.
    destruct (doneLine_is_done tok k rest Htok) as [Hcut Hdone].
    exact (pulls_reach_done (dataLine tok k) rest Hcut Hdone
                            (length pre) st pre (Nat.le_refl _) Hf Hw Hp).
Qed.

End Pulls.

(** ** The earlier reader at the end of the source *)

Section LegacyEnd.

Variable T : Type.
Variable Unmarshal : forall k : target, bytes -> slot T k -> slot T k * option error.
Variable TrimFunc_IsSpace : bytes -> bytes.

(** The earlier reader reports ["stream ended unexpectedly with partial
    data"] in one case: the source ends in a line without newline that is
    not a data line carrying something other than [[DONE]], and the error
    accumulator holds bytes. *)
Lemma legacy_partial_data_error
      (s : streamReader) (c : N) (h : bool) (rawLine : bytes) (rd : Reader) :
  ReadBytes (reader s) = (rawLine, Some io_EOF, rd) ->
  rawLine <> [] ->
  Legacy.headerData_Match (Legacy.TrimSpace TrimFunc_IsSpace rawLine) = false \/
  Legacy.headerData_ReplaceAll (Legacy.TrimSpace TrimFunc_IsSpace rawLine) = lit_DONE ->
  errAccumulator s <> [] ->
  Legacy.iteration Unmarshal TrimFunc_IsSpace s c h =
  Legacy.Return [] (Some Legacy.errPartialData) (set_reader s rd).
Proof.
  intros HR Hraw Hline Hacc. unfold Legacy.iteration. rewrite HR.
  destruct rawLine as [|b rawLine]; [contradiction|].
  cbn [Legacy.isEOF length Nat.ltb Nat.leb andb].
  assert (Hcond : Legacy.headerData_Match (Legacy.TrimSpace TrimFunc_IsSpace (b :: rawLine)) &&
                  negb (bytes_eqb (Legacy.headerData_ReplaceAll
                                     (Legacy.TrimSpace TrimFunc_IsSpace (b :: rawLine)))
                                  lit_DONE) = false).
  { destruct Hline as [-> | ->]; [reflexivity|]. apply andb_false_r. }
  rewrite Hcond. cbn [errAccumulator set_reader].
  destruct (errAccumulator s); [contradiction | reflexivity].
Qed.

End LegacyEnd.

(** On the body of an error line followed by a clean close the earlier
    reader returns [io.EOF] as well, without finishing the stream: the line
    went to the accumulator whole and does not decode. *)
Lemma legacy_error_line_then_close :
  exists st',
    Legacy.RecvRaw demoUnmarshal (fun b => b) demoErrorThenClose
      = Some ([], Some io_EOF, st') /\
    isFinished st' = false /\
    errAccumulator st' = lit_error ++ demoBadKey.
Proof. eexists. repeat split; reflexivity. Qed.

(** A last line without its newline is not looked at by the current reader:
    a data line cut there is lost, where the earlier reader returns it. *)
Lemma cut_data_line_is_dropped :
  exists st',
    RecvRaw demoUnmarshal demoCutDataLine = Some ([], Some io_EOF, st') /\
    isFinished st' = true /\
    exists st'',
      Legacy.RecvRaw demoUnmarshal (fun b => b) demoCutDataLine
        = Some (B "{a}", None, st'').
Proof. eexists. repeat split; try reflexivity. eexists. reflexivity. Qed.

(** ** The theorems at concrete streams *)

Lemma done_line_ends_the_stream_witness :
  exists s c rawLine rd,
    isFinished demoDone = false /\
    turns demoUnmarshal 1 (prepare demoDone) 0%N = Some (s, c) /\
    ReadBytes (reader s) = (rawLine, None, rd) /\
    rawLine = dataLine lit_DONE 1 /\
    exists final,
      RecvRaw demoUnmarshal demoDone = Some ([], Some io_EOF, final) /\
      Recv [] demoUnmarshal demoDone = Some ([], Some io_EOF, final) /\
      isFinished final = true /\ receivedDone final = true /\
      reader final = rd /\
      pending (reader s) = rawLine ++ pending (reader final) /\
      reads (reader final) = S (reads (reader s)).
Proof.
  do 4 eexists.
  split; [reflexivity|]. split; [reflexivity|]. split; [reflexivity|].
  split; [reflexivity|].
  eapply (done_line_ends_the_stream bytes [] demoUnmarshal demoDone) with (n := 1);
    try reflexivity.
  left. reflexivity.
Defined.

Lemma IsComplete_tells_done_from_eof_witness :
  (isFinished demoFrameThenClose = false /\
   receivedDone demoFrameThenClose = false /\
   noDoneLine (pending (reader demoFrameThenClose)) = true /\
   srcErr (reader demoFrameThenClose) = io_EOF /\
   exists n rs st',
     pulls demoUnmarshal (S n) demoFrameThenClose
       = Some (rs ++ [([], Some io_EOF)], st') /\
     isFinished st' = true /\ IsComplete st' = false) /\
  (isFinished demoFrameThenDone = false /\
   receivedDone demoFrameThenDone = false /\
   wholeLines (dataLine (B "{a}") 0 ++ eol 0) = true /\
   exists n rs st',
     pulls demoUnmarshal (S n) demoFrameThenDone
       = Some (rs ++ [([], Some io_EOF)], st') /\
     IsComplete st' = true /\ isFinished st' = true).
Proof.
  split.
  - split; [reflexivity|]. split; [reflexivity|]. split; [reflexivity|].
    split; [reflexivity|].
    destruct (IsComplete_tells_done_from_eof bytes demoUnmarshal demoFrameThenClose
                eq_refl eq_refl) as [H _].
    exact (proj2 (H eq_refl) eq_refl).
  - split; [reflexivity|]. split; [reflexivity|]. split; [reflexivity|].
    destruct (IsComplete_tells_done_from_eof bytes demoUnmarshal demoFrameThenDone
                eq_refl eq_refl) as [_ H].
    apply (H (dataLine (B "{a}") 0 ++ eol 0) lit_DONE (eol 0) 0).
    + reflexivity.
    + left. reflexivity.
    + reflexivity.
Defined.

Lemma eof_flushes_buffered_data_witness :
  exists s c rd,
    isFinished demoDataThenClose = false /\
    turns demoUnmarshal 1 (prepare demoDataThenClose) 0%N = Some (s, c) /\
    ReadBytes (reader s) = ([], Some io_EOF, rd) /\
    dataBuffer s = Some (B "{a}") /\
    B "{a}" <> [] /\
    exists s1 s2,
      RecvRaw demoUnmarshal demoDataThenClose = Some (B "{a}", None, s1) /\
      isFinished s1 = false /\ dataBuffer s1 = Some [] /\
      RecvRaw demoUnmarshal s1 = Some ([], Some io_EOF, s2) /\
      Recv [] demoUnmarshal s1 = Some ([], Some io_EOF, s2) /\
      isFinished s2 = true.
Proof.
  do 3 eexists.
  split; [reflexivity|]. split; [reflexivity|]. split; [reflexivity|].
  split; [reflexivity|]. split; [discriminate|].
  eapply (eof_flushes_buffered_data bytes [] demoUnmarshal demoDataThenClose)
    with (n := 1); try reflexivity.
  discriminate.
Defined.

Lemma eof_with_empty_buffer_is_end_of_stream_witness :
  exists s c rd,
    isFinished demoErrorThenClose = false /\
    turns demoUnmarshal 1 (prepare demoErrorThenClose) 0%N = Some (s, c) /\
    ReadBytes (reader s) = ([], Some io_EOF, rd) /\
    buffer_Bytes s = [] /\
    exists final,
      RecvRaw demoUnmarshal demoErrorThenClose = Some ([], Some io_EOF, final) /\
      Recv [] demoUnmarshal demoErrorThenClose = Some ([], Some io_EOF, final) /\
      isFinished final = true /\
      errAccumulator final = errAccumulator s /\
      receivedDone final = receivedDone demoErrorThenClose.
Proof.
  do 3 eexists.
  split; [reflexivity|]. split; [reflexivity|]. split; [reflexivity|].
  split; [reflexivity|].
  eapply (eof_with_empty_buffer_is_end_of_stream bytes [] demoUnmarshal
            demoErrorThenClose) with (n := 1); reflexivity.
Defined.

(** C4 as the spec states it fails: the body is an error line that decodes
    and the source closes cleanly before any blank line.  The source
    reports [io.EOF] with the data buffer empty and the error object in the
    accumulator, and the pull returns [io.EOF] and finishes the stream: no
    error other than the end-of-stream signal comes out. *)
Lemma pending_error_at_eof_reads_as_clean_end :
  exists s rd final,
    turns demoUnmarshal 1 (prepare demoErrorThenClose) 0%N = Some (s, 0%N) /\
    ReadBytes (reader s) = ([], Some io_EOF, rd) /\
    buffer_Bytes s = [] /\
    errAccumulator s = demoBadKey /\
    RecvRaw demoUnmarshal demoErrorThenClose = Some ([], Some io_EOF, final) /\
    Recv [] demoUnmarshal demoErrorThenClose = Some ([], Some io_EOF, final) /\
    isFinished final = true /\
    ~ (exists e st', RecvRaw demoUnmarshal demoErrorThenClose = Some ([], Some e, st') /\
                     e <> io_EOF).
Proof.
  do 3 eexists. repeat (split; [reflexivity|]).
  intros (e & st' & H & Hne). vm_compute in H. injection H as <- _. now apply Hne.
Qed.

(** The error that the close loses is reported on the paths beside it.  The
    blank-line branch of the same loop returns it when a blank line follows
    the error line.  The earlier reader does not end a stream cleanly while
    error bytes are pending: on a JSON error object followed by the close
    it returns the decoded error, wrapped, and on an error line followed by
    a cut line it returns its partial-data error, in both cases leaving the
    stream unfinished; the current reader returns [io.EOF] on both and
    finishes, with the error object still decodable in the accumulator. *)
Lemma pending_error_is_reported_elsewhere :
  (exists st',
     RecvRaw demoUnmarshal demoErrorEvent
       = Some ([], Some (APIErrorPtr (Some demoBadKeyError)), st') /\
     isFinished st' = false) /\
  (exists st1 st2,
     Legacy.RecvRaw demoUnmarshal (fun b => b) demoRawErrorThenClose
       = Some ([], Some (Wrapf "error, " (APIErrorPtr (Some demoBadKeyError))), st1) /\
     isFinished st1 = false /\
     RecvRaw demoUnmarshalJSON demoRawErrorThenClose = Some ([], Some io_EOF, st2) /\
     isFinished st2 = true /\
     pendingError demoUnmarshalJSON st2 = Some {| Error := Some demoBadKeyError |}) /\
  (exists st1 st2,
     Legacy.RecvRaw demoUnmarshal (fun b => b) demoErrorThenCutLine
       = Some ([], Some Legacy.errPartialData, st1) /\
     isFinished st1 = false /\
     RecvRaw demoUnmarshal demoErrorThenCutLine = Some ([], Some io_EOF, st2) /\
     isFinished st2 = true /\
     errAccumulator st2 = B "x").
Proof.
  split; [|split].
  - eexists. split; reflexivity.
  - do 2 eexists. repeat split; reflexivity.
  - do 2 eexists. repeat split; reflexivity.
Qed.

Lemma too_many_empty_messages_witness :
  isFinished demoBlanks = false /\
  buffer_Bytes demoBlanks = [] /\
  pendingError demoUnmarshal demoBlanks = None /\
  (emptyMessagesLimit demoBlanks + 1 < uint_max)%N /\
  N.to_nat (emptyMessagesLimit demoBlanks) < length [0; 1; 0; 0] /\
  exists st',
    RecvRaw demoUnmarshal demoBlanks
      = Some ([], Some ErrTooManyEmptyStreamMessages, st') /\
    reads (reader st') = 4 /\
    exists stF, RecvRaw demoUnmarshal st' = Some ([], Some io_EOF, stF) /\
                isFinished stF = true.
Proof.
  split; [reflexivity|]. split; [reflexivity|]. split; [reflexivity|].
  split; [reflexivity|]. split; [vm_compute; lia|].
  destruct (too_many_empty_messages bytes [] demoUnmarshal demoBlanks
              [0; 1; 0; 0] [] eq_refl eq_refl eq_refl eq_refl eq_refl)
    as [_ [(st' & H1 & _ & _ & H4 & _ & H6) _]].
  - vm_compute. lia.
  - exists st'. split; [exact H1|]. split; [exact H4|].
    apply H6; reflexivity.
Defined.

(** C5 as the spec states it fails: the input is four blank lines, read
    with an empty data buffer under a limit of one, and no frame is ever
    produced.  The error is not returned exactly once: the first pull
    returns it at the second blank line, and the second pull, counting from
    zero again, returns it at the fourth. *)
Lemma too_many_is_returned_again :
  exists s1 s2,
    pending (reader demoManyBlanks) = blanks [0; 0; 0; 0] /\
    emptyMessagesLimit demoManyBlanks = 1%N /\
    buffer_Bytes demoManyBlanks = [] /\
    RecvRaw demoUnmarshal demoManyBlanks
      = Some ([], Some ErrTooManyEmptyStreamMessages, s1) /\
    Recv [] demoUnmarshal demoManyBlanks
      = Some ([], Some ErrTooManyEmptyStreamMessages, s1) /\
    reads (reader s1) = 2 /\
    RecvRaw demoUnmarshal s1
      = Some ([], Some ErrTooManyEmptyStreamMessages, s2) /\
    Recv [] demoUnmarshal s1
      = Some ([], Some ErrTooManyEmptyStreamMessages, s2) /\
    reads (reader s2) = 4 /\
    ~ (exists rs st' i,
         pulls demoUnmarshal 2 demoManyBlanks = Some (rs, st') /\
         forall j, nth_error (map snd rs) j = Some (Some ErrTooManyEmptyStreamMessages)
                   <-> j = i).
Proof.
  do 2 eexists. repeat (split; [reflexivity|]).
  intros (rs & st' & i & H & Hi). vm_compute in H. injection H as <- _.
  pose proof (proj1 (Hi 0) eq_refl) as H0.
  pose proof (proj1 (Hi 1) eq_refl) as H1. congruence.
Qed.

Lemma finished_stream_is_inert_witness :
  isFinished demoFinished = true /\
  RecvRaw demoUnmarshal demoFinished = Some ([], Some io_EOF, demoFinished) /\
  Recv [] demoUnmarshal demoFinished = Some ([], Some io_EOF, demoFinished) /\
  forall n, pulls demoUnmarshal n demoFinished
            = Some (repeat ([], Some io_EOF) n, demoFinished).
Proof.
  split; [reflexivity|].
  exact (finished_stream_is_inert bytes [] demoUnmarshal demoFinished eq_refl).
Defined.

Lemma multi_line_data_is_one_frame_witness :
  isFinished demoTwoLines = false /\
  turns demoUnmarshal 0 (prepare demoTwoLines) 0%N = Some (prepare demoTwoLines, 0%N) /\
  dataBuffer (prepare demoTwoLines) = Some [] /\
  pendingError demoUnmarshal (prepare demoTwoLines) = None /\
  forallb data_payload [B "{a"; B "b}"] = true /\
  exists st',
    RecvRaw demoUnmarshal demoTwoLines = Some (B "{a" ++ [nl] ++ B "b}", None, st') /\
    dataBuffer st' = Some [] /\
    pending (reader st') = B "more" /\
    reads (reader st') = 3.
Proof.
  split; [reflexivity|]. split; [reflexivity|]. split; [reflexivity|].
  split; [reflexivity|]. split; [reflexivity|].
  destruct (multi_line_data_is_one_frame bytes demoUnmarshal demoTwoLines
              (prepare demoTwoLines) 0 0%N
              [(B "{a", 0); (B "b}", 1)] 0 (B "more")
              eq_refl eq_refl eq_refl eq_refl eq_refl)
    as (st' & H1 & H2 & H3 & H4 & _).
  - discriminate.
  - reflexivity.
  - exists st'. auto.
Defined.

Lemma error_lines_surface_at_boundary_witness :
  isFinished demoErrorEvent = false /\
  turns demoUnmarshal 0 (prepare demoErrorEvent) 0%N
    = Some (prepare demoErrorEvent, 0%N) /\
  forallb payload_ok [demoBadKey] = true /\
  demoUnmarshal ErrorResponsePtrT demoBadKey None
    = (Some {| Error := Some demoBadKeyError |}, None) /\
  exists s st',
    turns demoUnmarshal 1 (prepare demoErrorEvent) 0%N = Some (s, 0%N) /\
    errAccumulator s = demoBadKey /\
    RecvRaw demoUnmarshal demoErrorEvent
      = Some ([], Some (APIErrorPtr (Some demoBadKeyError)), st') /\
    Recv [] demoUnmarshal demoErrorEvent
      = Some ([], Some (APIErrorPtr (Some demoBadKeyError)), st') /\
    Message demoBadKeyError = "bad key"%string.
Proof.
  split; [reflexivity|]. split; [reflexivity|]. split; [reflexivity|].
  split; [reflexivity|].
  destruct (error_lines_surface_at_boundary bytes [] demoUnmarshal demoErrorEvent
              (prepare demoErrorEvent) 0 0%N
              [(demoBadKey, 0)] 0 [] {| Error := Some demoBadKeyError |}
              eq_refl eq_refl eq_refl eq_refl)
    as (s & st' & H1 & H2 & H3 & H4 & _).
  - discriminate.
  - reflexivity.
  - exists s, st'. auto.
Defined.



Lemma empty_count_starts_afresh_witness :
  isFinished demoTwoEvents = false /\
  buffer_Bytes demoTwoEvents = [] /\
  pendingError demoUnmarshal demoTwoEvents = None /\
  (emptyMessagesLimit demoTwoEvents < uint_max)%N /\
  forallb (event_ok (emptyMessagesLimit demoTwoEvents)) demoEvents = true /\
  N.to_nat (emptyMessagesLimit demoTwoEvents) < emptyBoundaries demoEvents /\
  exists st',
    pulls demoUnmarshal 2 demoTwoEvents
      = Some ([(B "{a}", None); (B "{b}", None)], st') /\
    pending (reader st') = [] /\
    isFinished st' = false.
Proof.
  split; [reflexivity|]. split; [reflexivity|]. split; [reflexivity|].
  split; [reflexivity|]. split; [reflexivity|]. split; [vm_compute; lia|].
  exact (proj2 (empty_count_starts_afresh bytes demoUnmarshal demoTwoEvents
                  demoEvents [] eq_refl eq_refl eq_refl eq_refl eq_refl eq_refl)).
Defined.

(** ** More of the current reader *)

Section Reader.

Variable T : Type.
Variable zeroT : T.
Variable Unmarshal : forall k : target, bytes -> slot T k -> slot T k * option error.

(** A turn returns a nil error only with the contents of the data buffer,
    which is not empty then and is reset. *)
Lemma iteration_Return_frame (s s' : streamReader) (c : N) (d : bytes) :
  iteration Unmarshal s c = Return d None s' ->
  d = buffer_Bytes s /\ d <> [] /\ dataBuffer s' = Some [] /\
  isFinished s' = isFinished s /\ receivedDone s' = receivedDone s /\
  errAccumulator s' = errAccumulator s.
Proof.
  unfold iteration.
  destruct (ReadBytes (reader s)) as [[rawLine readErr] rd] eqn:HR.
  intro H. destruct readErr as [err|].
  - crack H; try discriminate; injection H as <- <-;
      (split; [reflexivity|]); (split; [|repeat split]);
      intro Hd; change (buffer_Bytes (set_reader s rd)) with (buffer_Bytes s) in *;
      rewrite Hd in *; discriminate.
  - crack H; try discriminate; injection H as <- <-;
      (split; [reflexivity|]); (split; [|repeat split]);
      intro Hd; change (buffer_Bytes (set_reader s rd)) with (buffer_Bytes s) in *;
      rewrite Hd in *; discriminate.
Qed.

(** X1: a pull that returns a nil error returns a frame that is not empty;
    the data buffer is empty after it, and the stream is neither finished
    nor marked complete by it. *)
Theorem frame_is_never_empty (st st' : streamReader) (d : bytes) :
  RecvRaw Unmarshal st = Some (d, None, st') ->
  d <> [] /\ dataBuffer st' = Some [] /\
  isFinished st' = false /\ receivedDone st' = receivedDone st.
Proof.
  unfold RecvRaw. destruct (isFinished st) eqn:Hf; [discriminate|].
  rewrite processLines_prepare.
  assert (H : forall fuel s c d e s',
             isFinished s = false /\ receivedDone s = receivedDone st ->
             processLines_loop Unmarshal fuel s c = Some (d, e, s') ->
             e = None ->
             d <> [] /\ dataBuffer s' = Some [] /\
             isFinished s' = false /\ receivedDone s' = receivedDone st).
  { apply (processLines_loop_ind T Unmarshal
             (fun s _ => isFinished s = false /\ receivedDone s = receivedDone st)
             (fun d e s' => e = None ->
                d <> [] /\ dataBuffer s' = Some [] /\
                isFinished s' = false /\ receivedDone s' = receivedDone st)).
    - intros s c s' c' [H1 H2] Hi.
      apply iteration_Continue in Hi as (_ & _ & _ & E1 & E2 & _).
      split; congruence.
    - intros s c d0 e0 s' [H1 H2] Hi ->.
      apply iteration_Return_frame in Hi as (_ & Hd & Hb & E1 & E2 & _).
      repeat split; try assumption; congruence. }
  intro Hl. refine (H _ _ _ _ _ _ _ Hl eq_refl).
  destruct (prepare_flags st) as (P1 & P2 & _). split; congruence.
Qed.

Lemma ReadBytes_split (r rd : Reader) (rawLine : bytes) (readErr : option error) :
  ReadBytes r = (rawLine, readErr, rd) ->
  pending r = rawLine ++ pending rd /\
  reads rd + length (lines (pending rd)) <=
    reads r + length (lines (pending r)) +
    match readErr with Some _ => 1 | None => 0 end.
Proof.
  unfold ReadBytes. destruct (cut_at nl (pending r)) as [[l rest]|] eqn:C; intro H;
    injection H as <- <- <-; simpl.
  - rewrite (cut_at_lines _ _ _ C). simpl.
    apply cut_at_Some in C as (C & _). split; [exact C | lia].
  - rewrite app_nil_r. split; [reflexivity | lia].
Qed.

(** X2: every pull returns.  It takes a prefix of the pending bytes away and
    calls [ReadBytes] at most once per line that was pending, and once more. *)
Theorem pull_returns_within_bound (st : streamReader) :
  exists d e st' consumed,
    RecvRaw Unmarshal st = Some (d, e, st') /\
    pending (reader st) = consumed ++ pending (reader st') /\
    reads (reader st) <= reads (reader st') /\
    reads (reader st') <=
      reads (reader st) + length (lines (pending (reader st))) + 1.
Proof.
  destruct (RecvRaw_returns T Unmarshal st) as [[[d e] st'] H].
  exists d, e, st'. revert H. unfold RecvRaw. destruct (isFinished st).
  - intro H. injection H as <- <- <-. exists []. simpl. repeat split; lia.
  - rewrite processLines_prepare. intro H.
    cut ((exists consumed, pending (reader st) = consumed ++ pending (reader st')) /\
         reads (reader st) <= reads (reader st') /\
         reads (reader st') <=
           reads (reader st) + length (lines (pending (reader st))) + 1).
    { intros [[consumed Hc] Hr]. exists consumed. auto. }
    revert H.
    apply (processLines_loop_ind T Unmarshal
             (fun s _ =>
                (exists pre, pending (reader st) = pre ++ pending (reader s)) /\
                reads (reader st) <= reads (reader s) /\
                reads (reader s) + length (lines (pending (reader s))) <=
                  reads (reader st) + length (lines (pending (reader st))))
             (fun _ _ s' =>
                (exists pre, pending (reader st) = pre ++ pending (reader s')) /\
                reads (reader st) <= reads (reader s') /\
                reads (reader s') <=
                  reads (reader st) + length (lines (pending (reader st))) + 1)).
    + intros s c s' c' ([pre Hp] & Hr0 & Hr) Hi.
      apply iteration_Continue in Hi as (raw & HR & _).
      pose proof (ReadBytes_ok_inv _ _ _ HR) as (_ & _ & Hrd).
      apply ReadBytes_split in HR as (Hs & Hl). split; [|split; lia].
      exists (pre ++ raw). now rewrite Hp, Hs, app_assoc.
    + intros s c d0 e0 s' ([pre Hp] & Hr0 & Hr) Hi.
      apply iteration_Return in Hi as (raw & rerr & HR & _).
      assert (Hrd : reads (reader s') = S (reads (reader s))).
      { unfold ReadBytes in HR.
        destruct (cut_at nl (pending (reader s))) as [[? ?]|];
          injection HR as _ _ <-; reflexivity. }
      apply ReadBytes_split in HR as (Hs & Hl). split.
      * exists (pre ++ raw). now rewrite Hp, Hs, app_assoc.
      * destruct rerr; lia.
    + rewrite prepare_reader. split; [now exists []|]. lia.
Qed.

(** *** Lines the reader passes over *)

Lemma inertLine_whole (l : bytes) :
  inertLine l = true -> cut_at nl l = Some (l, []) /\ l <> [].
Proof.
  unfold inertLine. destruct (cut_at nl l) as [[l0 [|b r]]|] eqn:C; try discriminate.
  intros _. apply cut_at_Some in C as (C & _ & l1 & Hl).
  rewrite app_nil_r in C. subst l0. split; [reflexivity|].
  rewrite Hl. destruct l1; discriminate.
Qed.

Lemma iteration_inert (s : streamReader) (c : N) (l : bytes) (rd : Reader) :
  ReadBytes (reader s) = (l, None, rd) ->
  inertLine l = true ->
  iteration Unmarshal s c = Continue (set_reader s rd) c.
Proof.
  intros HR Hi. unfold inertLine in Hi.
  destruct (cut_at nl l) as [[l0 [|b r]]|]; try discriminate.
  apply andb_true_iff in Hi as [Hlen Hk]. apply negb_true_iff in Hlen.
  unfold iteration. rewrite HR, Hlen.
  destruct (HasPrefix (TrimRight l lit_crlf) lit_data).
  - apply bytes_eqb_eq in Hk. rewrite Hk. reflexivity.
  - apply andb_true_iff in Hk as [H1 H2]. apply negb_true_iff in H1, H2.
    now rewrite H1, H2.
Qed.

Lemma turns_inert (ls : list bytes) (s : streamReader) (c : N) (rest : bytes) :
  forallb inertLine ls = true ->
  pending (reader s) = concat ls ++ rest ->
  turns Unmarshal (length ls) s c =
  Some (set_reader s {| pending := rest; srcErr := srcErr (reader s);
                        reads := reads (reader s) + length ls |}, c).
Proof.
  revert s; induction ls as [|l ls IH]; intros s Hall Hp.
  - simpl in *. rewrite Nat.add_0_r, <- Hp.
    now destruct s as [lim f r [p e n] a d].
  - cbn [forallb] in Hall. apply andb_true_iff in Hall as [Hl Hall].
    cbn [concat] in Hp. rewrite <- app_assoc in Hp.
    destruct (inertLine_whole l Hl) as [Hcut _].
    assert (HR : ReadBytes (reader s) =
                 (l, None, {| pending := concat ls ++ rest;
                              srcErr := srcErr (reader s);
                              reads := S (reads (reader s)) |})).
    { apply ReadBytes_line. rewrite Hp.
      now rewrite (cut_at_Some_app _ _ (concat ls ++ rest) _ _ Hcut). }
    cbn [length turns]. rewrite (iteration_inert s c l _ HR Hl).
    rewrite IH; try assumption; try reflexivity.
    unfold set_reader. cbn [reader srcErr reads pending].
    now rewrite Nat.add_succ_r.
Qed.

Lemma concat_inert_length (ls : list bytes) :
  forallb inertLine ls = true -> length ls <= length (concat ls).
Proof.
  induction ls as [|l ls IH]; simpl; intro H; [lia|].
  apply andb_true_iff in H as [Hl H].
  destruct (inertLine_whole l Hl) as [_ Hne].
  rewrite length_app. specialize (IH H). destruct l; [contradiction|]. simpl. lia.
Qed.

(** The loop does not look at the count of reads. *)
Lemma iteration_addReads (s : streamReader) (c : N) (n : nat) :
  iteration Unmarshal (addReads s n) c =
  match iteration Unmarshal s c with
  | Return d e s' => Return d e (addReads s' n)
  | Continue s' c' => Continue (addReads s' n) c'
  end.
Proof.
  destruct s as [lim fin don [p err r] acc buf].
  unfold iteration, addReads, ReadBytes, pendingError, unmarshalError,
    buffer_Write, buffer_Reset, buffer_Bytes, set_reader, set_isFinished,
    set_receivedDone, set_errAccumulator, set_dataBuffer.
  cbn.
  destruct (cut_at nl p) as [[l rest]|]; cbn;
    repeat (match goal with
            | |- context [if ?x then _ else _] => destruct x eqn:?
            end; cbn);
    repeat (match goal with
            | |- context [match ?x with _ => _ end] => destruct x eqn:?
            end; cbn);
    reflexivity.
Qed.

Lemma iteration_addReads_Return (s s' : streamReader) (c : N) (n : nat)
      (d : bytes) (e : option error) :
  iteration Unmarshal s c = Return d e s' ->
  iteration Unmarshal (addReads s n) c = Return d e (addReads s' n).
Proof. intro H. now rewrite iteration_addReads, H. Qed.

Lemma iteration_addReads_Continue (s s' : streamReader) (c c' : N) (n : nat) :
  iteration Unmarshal s c = Continue s' c' ->
  iteration Unmarshal (addReads s n) c = Continue (addReads s' n) c'.
Proof. intro H. now rewrite iteration_addReads, H. Qed.

Lemma processLines_loop_addReads (fuel n : nat) (s s' : streamReader) (c : N)
      (d : bytes) (e : option error) :
  processLines_loop Unmarshal fuel s c = Some (d, e, s') ->
  processLines_loop Unmarshal fuel (addReads s n) c = Some (d, e, addReads s' n).
Proof.
  revert s c; induction fuel as [|fuel IH]; intros s c H; [discriminate|].
  simpl in *. destruct (iteration Unmarshal s c) as [d1 e1 s1|s1 c1] eqn:E.
  - injection H as <- <- <-. now rewrite (iteration_addReads_Return _ _ _ n _ _ E).
  - rewrite (iteration_addReads_Continue _ _ _ _ n E). now apply IH.
Qed.

Lemma processLines_loop_more_fuel (fuel fuel' : nat) (s : streamReader) (c : N)
      (r : bytes * option error * streamReader) :
  processLines_loop Unmarshal fuel s c = Some r ->
  fuel <= fuel' ->
  processLines_loop Unmarshal fuel' s c = Some r.
Proof.
  revert fuel' s c; induction fuel as [|fuel IH]; intros fuel' s c H Hle;
    [discriminate|].
  destruct fuel' as [|fuel']; [lia|]. simpl in *.
  destruct (iteration Unmarshal s c) as [d1 e1 s1|s1 c1]; [exact H|].
  apply IH; [exact H | lia].
Qed.

Lemma processLines_loop_skip (n fuel : nat) (s s1 : streamReader) (c c1 : N) :
  turns Unmarshal n s c = Some (s1, c1) ->
  processLines_loop Unmarshal (n + fuel) s c = processLines_loop Unmarshal fuel s1 c1.
Proof.
  revert s c; induction n as [|n IH]; simpl; intros s c H.
  - now injection H as <- <-.
  - destruct (iteration Unmarshal s c) as [|s2 c2]; [discriminate|]. now apply IH.
Qed.

(** At the head of a pull: the pull returns what it returns without the
    lines, and only the count of reads shows that they were read. *)
Lemma inert_lines_at_the_head (st : streamReader) (ls : list bytes) (rest : bytes) :
  isFinished st = false ->
  forallb inertLine ls = true ->
  pending (reader st) = concat ls ++ rest ->
  exists d e st',
    RecvRaw Unmarshal (withPending st rest) = Some (d, e, st') /\
    RecvRaw Unmarshal st = Some (d, e, addReads st' (length ls)).
Proof.
  intros Hf Hall Hp.
  destruct (RecvRaw_returns T Unmarshal (withPending st rest)) as [[[d e] st'] H].
  exists d, e, st'. split; [exact H|].
  unfold RecvRaw in *. change (isFinished (withPending st rest)) with (isFinished st) in H.
  rewrite Hf in *. rewrite processLines_prepare in *.
  change (pending (reader (withPending st rest))) with rest in H.
  apply (processLines_loop_addReads _ (length ls)) in H.
  assert (Ht : turns Unmarshal (length ls) (prepare st) 0%N =
               Some (addReads (prepare (withPending st rest)) (length ls), 0%N)).
  { rewrite (turns_inert ls (prepare st) 0%N rest Hall)
      by (rewrite prepare_reader; exact Hp).
    f_equal. f_equal. clear. destruct st as [lim fin don [p err r] acc [buf|]];
      reflexivity. }
  rewrite <- (processLines_loop_skip _ _ _ _ _ _ Ht) in H.
  apply (processLines_loop_more_fuel _ _ _ _ _ H).
  rewrite Hp, length_app. pose proof (concat_inert_length ls Hall). lia.
Qed.

(** A run of the loop that returns is a number of turns that go round
    again and one that returns. *)
Lemma processLines_loop_inv (fuel : nat) (s s' : streamReader) (c : N)
      (d : bytes) (e : option error) :
  processLines_loop Unmarshal fuel s c = Some (d, e, s') ->
  exists m s1 c1,
    turns Unmarshal m s c = Some (s1, c1) /\
    iteration Unmarshal s1 c1 = Return d e s'.
Proof.
  revert s c; induction fuel as [|fuel IH]; intros s c H; [discriminate|].
  simpl in H. destruct (iteration Unmarshal s c) as [d1 e1 s1|s1 c1] eqn:E.
  - injection H as <- <- <-. exists 0, s, c. now split.
  - destruct (IH _ _ H) as (m & s2 & c2 & Ht & Hi).
    exists (S m), s2, c2. split; [|exact Hi]. simpl. now rewrite E.
Qed.

Lemma turns_addReads (m k : nat) (s s1 : streamReader) (c c1 : N) :
  turns Unmarshal m s c = Some (s1, c1) ->
  turns Unmarshal m (addReads s k) c = Some (addReads s1 k, c1).
Proof.
  revert s c; induction m as [|m IH]; simpl; intros s c H.
  - now injection H as <- <-.
  - destruct (iteration Unmarshal s c) as [|s2 c2] eqn:E; [discriminate|].
    rewrite (iteration_addReads_Continue _ _ _ _ k E). now apply IH.
Qed.

(** X3: whole lines that are heartbeats (data lines with an empty payload)
    or that are neither blank, data, error nor error-object lines make no
    difference to a pull, wherever in the pull they are met.  After them
    the loop is in the state it had before them, with the same count of
    empty messages, the lines consumed and the reads counted; the pull
    returns what the loop returns when it goes on from that state, at that
    count, without the lines.  The lines neither add to the count nor
    start it again, however many they are. *)
Theorem inert_lines_are_skipped
        (st s : streamReader) (n : nat) (c : N) (ls : list bytes) (rest : bytes) :
  isFinished st = false ->
  turns Unmarshal n (prepare st) 0%N = Some (s, c) ->
  forallb inertLine ls = true ->
  pending (reader s) = concat ls ++ rest ->
  turns Unmarshal (n + length ls) (prepare st) 0%N =
    Some (addReads (withPending s rest) (length ls), c) /\
  exists d e st',
    processLines_loop Unmarshal (S (length rest)) (withPending s rest) c
      = Some (d, e, st') /\
    RecvRaw Unmarshal st = Some (d, e, addReads st' (length ls)).
Proof.
  intros Hf Ht Hall Hp.
  assert (Ht2 : turns Unmarshal (n + length ls) (prepare st) 0%N =
                Some (addReads (withPending s rest) (length ls), c)).
  { rewrite (turns_app _ Unmarshal n (length ls) _ _ _ _ Ht).
    rewrite (turns_inert ls s c rest Hall Hp).
    clear. destruct s as [lim fin don [p err r] acc buf]. reflexivity. }
  split; [exact Ht2|].
  destruct (processLines_loop_returns T Unmarshal (S (length rest))
              (withPending s rest) c) as [[[d e] st'] H].
  { change (pending (reader (withPending s rest))) with rest. lia. }
  exists d, e, st'. split; [exact H|].
  apply processLines_loop_inv in H as (m & s1 & c1 & Hm & Hi).
  apply (turns_addReads m (length ls)) in Hm.
  apply (iteration_addReads_Return _ _ _ (length ls)) in Hi.
  eapply (RecvRaw_turns T Unmarshal (n + length ls + m) st); [exact Hf | | exact Hi].
  now rewrite (turns_app _ Unmarshal (n + length ls) m _ _ _ _ Ht2).
Qed.

(** *** Frames through [Recv] *)

(** [Recv] on a pull that gave a frame: the frame decoded, and the stream as
    the pull left it. *)
Lemma Recv_frame (st st1 : streamReader) (frame : bytes) :
  RecvRaw Unmarshal st = Some (frame, None, st1) ->
  Recv zeroT Unmarshal st =
  Some (fst (decodeFrame zeroT Unmarshal frame),
        snd (decodeFrame zeroT Unmarshal frame), st1).
Proof.
  intro H. unfold Recv, decodeFrame. rewrite H.
  destruct (frameError Unmarshal frame); [reflexivity|].
  destruct (Unmarshal ResponseT frame zeroT) as [response [e|]];
    [destruct (Contains frame lit_choices)|]; reflexivity.
Qed.

(** [Recv] on a stream whose next line is a terminal line. *)
Lemma Recv_done_line (st : streamReader) (tok rest : bytes) (k : nat) :
  isFinished st = false ->
  tok = lit_DONE \/ tok = lit_done ->
  pending (reader st) = dataLine tok k ++ rest ->
  exists st',
    Recv zeroT Unmarshal st = Some (zeroT, Some io_EOF, st') /\
    receivedDone st' = true /\ isFinished st' = true /\
    pending (reader st') = rest.
Proof.
  intros Hf Htok Hp.
  destruct (doneLine_is_done tok k rest Htok) as [Hcut Hdone].
  assert (HR : ReadBytes (reader (prepare st)) =
               (dataLine tok k, None,
                {| pending := rest; srcErr := srcErr (reader (prepare st));
                   reads := S (reads (reader (prepare st))) |})).
  { apply ReadBytes_line. now rewrite prepare_reader, Hp. }
  pose proof (iteration_done T Unmarshal (prepare st) 0%N _ _ HR Hdone) as Hi.
  assert (Ht : turns Unmarshal 0 (prepare st) 0%N = Some (prepare st, 0%N))
    by reflexivity.
  pose proof (RecvRaw_turns T Unmarshal 0 st _ _ _ _ _ Hf Ht Hi) as Hraw.
  eexists. split; [exact (Recv_EOF T zeroT Unmarshal st _ [] Hraw)|].
  repeat split.
Qed.

(** X4: events on the wire followed by a terminal line are read by as many
    calls of [Recv] as there are events, each returning what the decoding
    makes of its frame whatever the calls before it returned, and one more
    call that returns [io.EOF] and leaves the stream complete. *)
Theorem recv_decodes_each_frame
        (st : streamReader) (es : list event) (tok rest : bytes) (k : nat) :
  isFinished st = false ->
  buffer_Bytes st = [] ->
  pendingError Unmarshal st = None ->
  (emptyMessagesLimit st < uint_max)%N ->
  forallb (event_ok (emptyMessagesLimit st)) es = true ->
  tok = lit_DONE \/ tok = lit_done ->
  pending (reader st) = concat (map eventBytes es) ++ dataLine tok k ++ rest ->
  exists st',
    recvs zeroT Unmarshal (S (length es)) st =
      Some (map (fun e => decodeFrame zeroT Unmarshal (eventFrame e)) es
              ++ [(zeroT, Some io_EOF)], st') /\
    IsComplete st' = true /\ isFinished st' = true /\
    pending (reader st') = rest.
Proof.
  revert st; induction es as [|e es IH]; intros st Hf Hb He Hl Hall Htok Hp.
  - simpl in Hp. destruct (Recv_done_line st tok rest k Hf Htok Hp)
      as (st' & H & Hd & Hfin & Hrest).
    exists st'. cbn [length recvs map app]. rewrite H. auto.
  - cbn [forallb] in Hall. apply andb_true_iff in Hall as [Hok Hall].
    cbn [map concat] in Hp. rewrite <- app_assoc in Hp.
    destruct (pull_event T Unmarshal st e _ Hf Hb He Hl Hok Hp)
      as (st1 & H1 & Hf1 & Hb1 & He1 & Hl1 & Hp1).
    rewrite <- Hl1 in Hl, Hall.
    destruct (IH st1 Hf1 Hb1 He1 Hl Hall Htok Hp1) as (st' & H2 & Hrest).
    exists st'. split; [|exact Hrest].
    change (recvs zeroT Unmarshal (S (length (e :: es))) st) with
      (match Recv zeroT Unmarshal st with
       | None => None
       | Some (m, err, s1) =>
           match recvs zeroT Unmarshal (S (length es)) s1 with
           | None => None
           | Some (rs, s2) => Some ((m, err) :: rs, s2)
           end
       end).
    rewrite (Recv_frame st st1 _ H1), H2. cbn [map app].
    now destruct (decodeFrame zeroT Unmarshal (eventFrame e)).
Qed.

(** *** A failing source *)

Lemma iteration_read_error (s : streamReader) (c : N) (rawLine : bytes)
      (e : error) (rd : Reader) :
  ReadBytes (reader s) = (rawLine, Some e, rd) ->
  e <> io_EOF ->
  iteration Unmarshal s c = Return [] (Some e) (set_reader s rd).
Proof.
  intros HR He. unfold iteration. rewrite HR.
  destruct e; try reflexivity. now elim He.
Qed.

(** X5: when the source fails in a turn of a pull with an error that is not
    [io.EOF] itself, [RecvRaw] returns that error and no data; [Recv]
    returns [io.EOF] in its place when the error is or wraps
    [io.ErrUnexpectedEOF] or [io.EOF], and the error itself otherwise.  The
    stream is not finished by it, and the data buffer and the error
    accumulator keep what they hold: buffered data is neither returned nor
    dropped. *)
Theorem read_error_leaves_stream_unfinished
        (st s : streamReader) (n : nat) (c : N) (rawLine : bytes)
        (e : error) (rd : Reader) :
  isFinished st = false ->
  turns Unmarshal n (prepare st) 0%N = Some (s, c) ->
  ReadBytes (reader s) = (rawLine, Some e, rd) ->
  e <> io_EOF ->
  exists st',
    RecvRaw Unmarshal st = Some ([], Some e, st') /\
    Recv zeroT Unmarshal st =
      Some (zeroT,
            Some (if errors_Is e S_ErrUnexpectedEOF || errors_Is e S_EOF
                  then io_EOF else e),
            st') /\
    isFinished st' = false /\
    receivedDone st' = receivedDone st /\
    dataBuffer st' = dataBuffer s /\
    errAccumulator st' = errAccumulator s.
Proof.
  intros Hf Ht HR He.
  pose proof (iteration_read_error s c rawLine e rd HR He) as Hi.
  pose proof (RecvRaw_turns T Unmarshal n st _ _ _ _ _ Hf Ht Hi) as Hraw.
  destruct (pull_turn_flags T Unmarshal n st s c Ht) as (F1 & F2 & _).
  exists (set_reader s rd). split; [exact Hraw|]. split.
  - unfold Recv. rewrite Hraw.
    now destruct (errors_Is e S_ErrUnexpectedEOF || errors_Is e S_EOF).
  - simpl. repeat split; congruence.
Qed.

(** *** What a pull keeps *)

(** A turn of the loop never clears a flag, sets [receivedDone] only
    together with [isFinished], leaves the limit alone and only adds to the
    error accumulator. *)
Lemma iteration_keeps_state (s s' : streamReader) (c : N) :
  (exists d e, iteration Unmarshal s c = Return d e s') \/
  (exists c', iteration Unmarshal s c = Continue s' c') ->
  (isFinished s = true -> isFinished s' = true) /\
  (receivedDone s = true -> receivedDone s' = true) /\
  (receivedDone s' = true -> receivedDone s = true \/ isFinished s' = true) /\
  emptyMessagesLimit s' = emptyMessagesLimit s /\
  exists added, errAccumulator s' = errAccumulator s ++ added.
Proof.
  destruct s as [lim fin don [p err r] acc buf].
  unfold iteration, ReadBytes, pendingError, unmarshalError,
    buffer_Write, buffer_Reset, buffer_Bytes, set_reader, set_isFinished,
    set_receivedDone, set_errAccumulator, set_dataBuffer.
  cbn.
  intros [(d & e & H) | (c' & H)];
    destruct (cut_at nl p) as [[l rest]|]; cbn in H;
    crack H; try discriminate;
    first [injection H as <- <- <- | injection H as <- <-]; cbn;
    (split; [auto|]); (split; [auto|]); (split; [auto|]); (split; [reflexivity|]);
    first [ exists []; now rewrite app_nil_r
          | eexists; reflexivity
          | eexists; symmetry; apply app_assoc ].
Qed.

Lemma iteration_keeps (s : streamReader) (c : N) :
  match iteration Unmarshal s c with
  | Return _ _ s' | Continue s' _ =>
      (isFinished s = true -> isFinished s' = true) /\
      (receivedDone s = true -> receivedDone s' = true) /\
      (receivedDone s' = true -> receivedDone s = true \/ isFinished s' = true) /\
      emptyMessagesLimit s' = emptyMessagesLimit s /\
      exists added, errAccumulator s' = errAccumulator s ++ added
  end.
Proof.
  destruct (iteration Unmarshal s c) as [d e s'|s' c'] eqn:E;
    apply (iteration_keeps_state s s' c); [left | right]; eauto.
Qed.

Lemma RecvRaw_keeps (st st' : streamReader) (d : bytes) (e : option error) :
  RecvRaw Unmarshal st = Some (d, e, st') ->
  (isFinished st = true -> isFinished st' = true) /\
  (receivedDone st = true -> receivedDone st' = true) /\
  ((receivedDone st = true -> isFinished st = true) ->
   receivedDone st' = true -> isFinished st' = true) /\
  emptyMessagesLimit st' = emptyMessagesLimit st /\
  exists added, errAccumulator st' = errAccumulator st ++ added.
Proof.
  assert (L : forall fuel,
             processLines_loop Unmarshal fuel (prepare st) 0%N = Some (d, e, st') ->
             (receivedDone st = true -> receivedDone st' = true) /\
             ((receivedDone st = true -> isFinished st = true) ->
              receivedDone st' = true -> isFinished st' = true) /\
             emptyMessagesLimit st' = emptyMessagesLimit st /\
             exists added, errAccumulator st' = errAccumulator st ++ added).
  { intro fuel.
    destruct (prepare_flags st) as (P1 & P2 & P3 & P4 & _).
    apply (processLines_loop_ind T Unmarshal
             (fun s _ =>
                (receivedDone st = true -> receivedDone s = true) /\
                ((receivedDone st = true -> isFinished st = true) ->
                 receivedDone s = true -> isFinished s = true) /\
                emptyMessagesLimit s = emptyMessagesLimit st /\
                exists added, errAccumulator s = errAccumulator st ++ added)
             (fun _ _ s' =>
                (receivedDone st = true -> receivedDone s' = true) /\
                ((receivedDone st = true -> isFinished st = true) ->
                 receivedDone s' = true -> isFinished s' = true) /\
                emptyMessagesLimit s' = emptyMessagesLimit st /\
                exists added, errAccumulator s' = errAccumulator st ++ added)).
    - intros s c s1 c1 (I1 & I2 & I3 & a & I4) Hi.
      pose proof (iteration_keeps s c) as K. rewrite Hi in K.
      destruct K as (K1 & K2 & K3 & K4 & a' & K5).
      split; [auto|]. split; [|split; [congruence|]].
      + intros Hinv Hd. destruct (K3 Hd); auto.
      + exists (a ++ a'). now rewrite K5, I4, app_assoc.
    - intros s c d0 e0 s1 (I1 & I2 & I3 & a & I4) Hi.
      pose proof (iteration_keeps s c) as K. rewrite Hi in K.
      destruct K as (K1 & K2 & K3 & K4 & a' & K5).
      split; [auto|]. split; [|split; [congruence|]].
      + intros Hinv Hd. destruct (K3 Hd); auto.
      + exists (a ++ a'). now rewrite K5, I4, app_assoc.
    - rewrite P2, P1, P3, P4. split; [auto|]. split; [auto|].
      split; [reflexivity|]. exists []. now rewrite app_nil_r. }
  unfold RecvRaw. destruct (isFinished st) eqn:Hf.
  - intro H. injection H as <- <- <-. repeat split; auto.
    exists []. now rewrite app_nil_r.
  - rewrite processLines_prepare. intro H.
    destruct (L _ H) as (L1 & L2 & L3 & L4).
    split; [discriminate|]. auto.
Qed.

(** X6: pulls never clear [isFinished] or [receivedDone], and a stream that
    is complete only when finished stays so: on a stream built by
    [newStream], [IsComplete] true means the stream is finished. *)
Theorem complete_implies_finished
        (n : nat) (st st' : streamReader) (rs : list (bytes * option error)) :
  pulls Unmarshal n st = Some (rs, st') ->
  (receivedDone st = true -> isFinished st = true) ->
  (IsComplete st' = true -> isFinished st' = true) /\
  (isFinished st = true -> isFinished st' = true) /\
  (IsComplete st = true -> IsComplete st' = true).
Proof.
  revert st rs; induction n as [|n IH]; simpl; intros st rs H Hinv.
  - injection H as <- <-. auto.
  - destruct (RecvRaw Unmarshal st) as [[[d e] st1]|] eqn:H1; [|discriminate].
    destruct (pulls Unmarshal n st1) as [[rs1 st2]|] eqn:H2; [|discriminate].
    injection H as <- <-.
    destruct (RecvRaw_keeps st st1 d e H1) as (K1 & K2 & K3 & _).
    destruct (IH st1 rs1 H2 (K3 Hinv)) as (J1 & J2 & J3).
    unfold IsComplete in *. auto.
Qed.

(** X7: pulls never change the limit of empty messages and never take bytes
    out of the error accumulator: what it held stays at its front, also
    after an error decoded from it was returned. *)
Theorem error_accumulator_only_grows
        (n : nat) (st st' : streamReader) (rs : list (bytes * option error)) :
  pulls Unmarshal n st = Some (rs, st') ->
  emptyMessagesLimit st' = emptyMessagesLimit st /\
  exists added, errAccumulator st' = errAccumulator st ++ added.
Proof.
  revert st rs; induction n as [|n IH]; simpl; intros st rs H.
  - injection H as <- <-. split; [reflexivity|]. exists []. now rewrite app_nil_r.
  - destruct (RecvRaw Unmarshal st) as [[[d e] st1]|] eqn:H1; [|discriminate].
    destruct (pulls Unmarshal n st1) as [[rs1 st2]|] eqn:H2; [|discriminate].
    injection H as <- <-.
    destruct (RecvRaw_keeps st st1 d e H1) as (_ & _ & _ & K4 & a & K5).
    destruct (IH st1 rs1 H2) as (J1 & a' & J2).
    split; [congruence|]. exists (a ++ a'). now rewrite J2, K5, app_assoc.
Qed.

(** *** An error that stays *)

Lemma pulls_finished (n : nat) (s : streamReader) :
  isFinished s = true ->
  pulls Unmarshal n s = Some (repeat ([], Some io_EOF) n, s).
Proof.
  intro Hf. assert (HR : RecvRaw Unmarshal s = Some ([], Some io_EOF, s))
    by (unfold RecvRaw; now rewrite Hf).
  induction n as [|n IH]; simpl; [reflexivity|]. now rewrite HR, IH.
Qed.

(** X8: the error accumulator is not cleared when the error decoded from it
    is returned.  While its bytes decode, every pull that starts at a blank
    line returns that error again, reading that one line: [n] blank lines
    give the error [n] times, and whatever the data buffer holds is kept
    back. *)
Theorem pending_error_is_returned_again
        (st : streamReader) (respErr : ErrorResponse) (ks : list nat) (rest : bytes) :
  isFinished st = false ->
  pendingError Unmarshal st = Some respErr ->
  pending (reader st) = blanks ks ++ rest ->
  exists st',
    pulls Unmarshal (length ks) st =
      Some (repeat ([], Some (APIErrorPtr (Error respErr))) (length ks), st') /\
    pending (reader st') = rest /\
    buffer_Bytes st' = buffer_Bytes st /\
    errAccumulator st' = errAccumulator st /\
    isFinished st' = false.
Proof.
  revert st; induction ks as [|k ks IH]; intros st Hf He Hp.
  - exists st. simpl in *. auto.
  - destruct (prepare_flags st) as (P1 & _ & _ & P4 & P5).
    set (rd := {| pending := blanks ks ++ rest; srcErr := srcErr (reader st);
                  reads := S (reads (reader st)) |}).
    assert (HR : ReadBytes (reader (prepare st)) = (eol k, None, rd)).
    { rewrite prepare_reader. apply (ReadBytes_line (reader st) (eol k) (pending rd)).
      rewrite Hp. unfold blanks. simpl. rewrite <- app_assoc. apply cut_at_eol. }
    pose proof (iteration_boundary T Unmarshal (prepare st) 0%N _ _ HR
                                   (TrimRight_eol k)) as Hi.
    rewrite (pendingError_ext T Unmarshal (prepare st) st P4), He in Hi.
    assert (Ht : turns Unmarshal 0 (prepare st) 0%N = Some (prepare st, 0%N))
      by reflexivity.
    pose proof (RecvRaw_turns T Unmarshal 0 st _ _ _ _ _ Hf Ht Hi) as H1.
    destruct (IH (set_reader (prepare st) rd)) as (st' & H2 & Hr & Hb & Ha & Hfin).
    + simpl. congruence.
    + rewrite (pendingError_ext T Unmarshal (set_reader (prepare st) rd) st)
        by exact P4. exact He.
    + reflexivity.
    + exists st'. cbn [length pulls repeat]. rewrite H1, H2.
      repeat split; try assumption.
      * rewrite Hb. exact P5.
      * rewrite Ha. exact P4.
Qed.

(** *** Data before the terminal line *)

(** X9: a terminal line ends the stream also when the data buffer holds
    payloads that no blank line has closed: the pull returns [io.EOF], the
    payloads stay in the buffer and no later pull returns them. *)
Theorem done_line_drops_buffered_data
        (st s : streamReader) (n : nat) (c : N)
        (items : list (bytes * nat)) (tok rest : bytes) (k : nat) :
  isFinished st = false ->
  turns Unmarshal n (prepare st) 0%N = Some (s, c) ->
  dataBuffer s = Some [] ->
  forallb data_payload (map fst items) = true ->
  tok = lit_DONE \/ tok = lit_done ->
  pending (reader s) = dataLines items ++ dataLine tok k ++ rest ->
  exists final,
    RecvRaw Unmarshal st = Some ([], Some io_EOF, final) /\
    IsComplete final = true /\ isFinished final = true /\
    buffer_Bytes final = joinLines (map fst items) /\
    pending (reader final) = rest /\
    forall m, pulls Unmarshal m final = Some (repeat ([], Some io_EOF) m, final).
Proof.
  intros Hf Ht0 Hb Hall Htok Hp.
  pose proof (turns_dataLines T Unmarshal items s c [] (dataLine tok k ++ rest)
                              Hall Hb Hp) as Ht.
  rewrite (fold_joined_joinLines _ Hall) in Ht.
  rewrite <- (turns_app T Unmarshal _ (length items) _ _ _ _ Ht0) in Ht.
  match type of Ht with _ = Some (?x, _) => set (sK := x) in * end.
  destruct (doneLine_is_done tok k rest Htok) as [Hcut Hdone].
  assert (HR : ReadBytes (reader sK) =
               (dataLine tok k, None,
                {| pending := rest; srcErr := srcErr (reader sK);
                   reads := S (reads (reader sK)) |})).
  { apply ReadBytes_line. exact Hcut. }
  pose proof (iteration_done T Unmarshal sK c _ _ HR Hdone) as Hi.
  pose proof (RecvRaw_turns T Unmarshal _ st _ _ _ _ _ Hf Ht Hi) as H1.
  eexists. split; [exact H1|].
  split; [reflexivity|]. split; [reflexivity|]. split; [reflexivity|].
  split; [reflexivity|]. intro m. now apply pulls_finished.
Qed.

(** *** The limit is not applied early *)

Lemma iteration_counts (s s' : streamReader) (c c' : N) :
  iteration Unmarshal s c = Continue s' c' -> (c' <= c + 1)%N.
Proof.
  unfold iteration.
  destruct (ReadBytes (reader s)) as [[rawLine readErr] rd].
  intro H. crack H; try discriminate; injection H as _ <-; try lia.
  apply N.Div0.mod_le.
Qed.

Lemma iteration_too_many (s s' : streamReader) (c : N) (d : bytes) :
  iteration Unmarshal s c = Return d (Some ErrTooManyEmptyStreamMessages) s' ->
  srcErr (reader s) = ErrTooManyEmptyStreamMessages \/
  (emptyMessagesLimit s < c + 1)%N.
Proof.
  unfold iteration.
  destruct (ReadBytes (reader s)) as [[rawLine readErr] rd] eqn:HR.
  intro H. destruct readErr as [err|].
  - left. apply ReadBytes_err_inv in HR as (He & _).
    crack H; try discriminate; now symmetry.
  - right. crack H; try discriminate.
    match goal with
    | E : (_ <? _)%N = true |- _ => apply N.ltb_lt in E
    end.
    eapply N.lt_le_trans; [eassumption|]. apply N.Div0.mod_le.
Qed.

(** X10: [ErrTooManyEmptyStreamMessages] is never returned early: a pull
    that returns it has made more calls of [ReadBytes] than the limit
    allows empty messages.  (The source is taken not to fail with this very
    error.) *)
Theorem too_many_only_past_the_limit (st st' : streamReader) (d : bytes) :
  RecvRaw Unmarshal st = Some (d, Some ErrTooManyEmptyStreamMessages, st') ->
  srcErr (reader st) <> ErrTooManyEmptyStreamMessages ->
  (emptyMessagesLimit st < N.of_nat (reads (reader st') - reads (reader st)))%N.
Proof.
  unfold RecvRaw. destruct (isFinished st); [discriminate|].
  rewrite processLines_prepare. intros H Hsrc.
  assert (L : forall fuel s c d e s',
             ((c <= N.of_nat (reads (reader s) - reads (reader st)))%N /\
              reads (reader st) <= reads (reader s) /\
              srcErr (reader s) = srcErr (reader st) /\
              emptyMessagesLimit s = emptyMessagesLimit st) ->
             processLines_loop Unmarshal fuel s c = Some (d, e, s') ->
             e = Some ErrTooManyEmptyStreamMessages ->
             (emptyMessagesLimit st <
              N.of_nat (reads (reader s') - reads (reader st)))%N).
  { apply (processLines_loop_ind T Unmarshal
             (fun s c =>
                (c <= N.of_nat (reads (reader s) - reads (reader st)))%N /\
                reads (reader st) <= reads (reader s) /\
                srcErr (reader s) = srcErr (reader st) /\
                emptyMessagesLimit s = emptyMessagesLimit st)
             (fun _ e s' =>
                e = Some ErrTooManyEmptyStreamMessages ->
                (emptyMessagesLimit st <
                 N.of_nat (reads (reader s') - reads (reader st)))%N)).
    - intros s c s1 c1 (I1 & I2 & I3 & I4) Hi.
      pose proof (iteration_counts s s1 c c1 Hi) as Hc.
      apply iteration_Continue in Hi as (raw & HR & _ & _ & _ & Hlim).
      apply ReadBytes_ok_inv in HR as (_ & Hs & Hr).
      repeat split; try congruence; lia.
    - intros s c d0 e0 s1 (I1 & I2 & I3 & I4) Hi ->.
      pose proof (iteration_too_many s s1 c d0 Hi) as [Hs | Hl]; [congruence|].
      apply iteration_Return in Hi as (raw & rerr & HR & _).
      assert (Hr : reads (reader s1) = S (reads (reader s))).
      { unfold ReadBytes in HR.
        destruct (cut_at nl (pending (reader s))) as [[? ?]|];
          injection HR as _ _ <-; reflexivity. }
      rewrite I4 in Hl. lia. }
  refine (L _ _ _ _ _ _ _ H eq_refl).
  destruct (prepare_flags st) as (_ & _ & P3 & _). rewrite prepare_reader.
  repeat split; auto; lia.
Qed.

(** *** A JSON error sent as a line of its own *)

Lemma iteration_raw_error (s : streamReader) (c : N) (rawLine : bytes) (rd : Reader) :
  ReadBytes (reader s) = (rawLine, None, rd) ->
  Contains (TrimRight rawLine lit_crlf) lit_error_key = true ->
  HasPrefix (TrimRight rawLine lit_crlf) lit_brace = true ->
  iteration Unmarshal s c =
  Continue (set_errAccumulator (set_reader s rd)
              ((errAccumulator s ++ TrimRight rawLine lit_crlf) ++ [nl]))
           c.
Proof.
  intros HR Hc Hb. unfold iteration. rewrite HR.
  pose proof (HasPrefix_split _ _ Hb) as Hs.
  destruct (TrimRight rawLine lit_crlf) as [|x line] eqn:E; [discriminate|].
  cbn [length Nat.eqb].
  assert (Hd : HasPrefix (x :: line) lit_data = false) by (rewrite Hs; reflexivity).
  assert (He : HasPrefix (x :: line) lit_error = false) by (rewrite Hs; reflexivity).
  now rewrite Hd, He, Hc, Hb.
Qed.

(** X11: a whole line that starts with a brace and contains the error key
    is appended to the error accumulator, trimmed and followed by a
    newline; when a blank line comes next and the accumulated bytes decode,
    the pull returns the decoded error, and [Recv] returns it with no
    message. *)
Theorem raw_error_line_surfaces_at_boundary
        (st s : streamReader) (n : nat) (c : N) (l rest : bytes) (k : nat)
        (respErr : ErrorResponse) :
  isFinished st = false ->
  turns Unmarshal n (prepare st) 0%N = Some (s, c) ->
  rawErrorLine l = true ->
  pending (reader s) = l ++ eol k ++ rest ->
  Unmarshal ErrorResponsePtrT
            ((errAccumulator s ++ TrimRight l lit_crlf) ++ [nl]) None
    = (Some respErr, None) ->
  exists st',
    RecvRaw Unmarshal st = Some ([], Some (APIErrorPtr (Error respErr)), st') /\
    Recv zeroT Unmarshal st = Some (zeroT, Some (APIErrorPtr (Error respErr)), st') /\
    errAccumulator st' = (errAccumulator s ++ TrimRight l lit_crlf) ++ [nl] /\
    pending (reader st') = rest /\
    isFinished st' = false.
Proof.
  intros Hf Ht0 Hl Hp Hdec.
  destruct (pull_turn_flags T Unmarshal n st s c Ht0) as (F1 & _).
  unfold rawErrorLine in Hl.
  destruct (cut_at nl l) as [[l0 [|b r]]|] eqn:C; try discriminate.
  apply andb_true_iff in Hl as [Hc Hb].
  assert (Hl0 : l0 = l).
  { apply cut_at_Some in C as (C & _). now rewrite app_nil_r in C. }
  subst l0.
  set (rd1 := {| pending := eol k ++ rest; srcErr := srcErr (reader s);
                 reads := S (reads (reader s)) |}).
  assert (HR1 : ReadBytes (reader s) = (l, None, rd1)).
  { apply (ReadBytes_line (reader s) l (eol k ++ rest)). rewrite Hp.
    now rewrite (cut_at_Some_app _ _ (eol k ++ rest) _ _ C). }
  pose proof (iteration_raw_error s c l rd1 HR1 Hc Hb) as Hi1.
  match type of Hi1 with _ = Continue ?x _ => set (s1 := x) in * end.
  assert (Ht1 : turns Unmarshal (n + 1) (prepare st) 0%N = Some (s1, c)).
  { rewrite (turns_app T Unmarshal _ 1 _ _ _ _ Ht0). simpl. now rewrite Hi1. }
  set (rd2 := {| pending := rest; srcErr := srcErr (reader s);
                 reads := S (S (reads (reader s))) |}).
  assert (HR2 : ReadBytes (reader s1) = (eol k, None, rd2)).
  { apply (ReadBytes_line (reader s1) (eol k) rest). apply cut_at_eol. }
  pose proof (iteration_boundary T Unmarshal s1 c _ _ HR2 (TrimRight_eol k)) as Hi2.
  assert (Hpe : pendingError Unmarshal s1 = Some respErr).
  { unfold pendingError, unmarshalError.
    change (errAccumulator s1)
      with ((errAccumulator s ++ TrimRight l lit_crlf) ++ [nl]).
    rewrite Hdec.
    destruct ((errAccumulator s ++ TrimRight l lit_crlf) ++ [nl]) eqn:E;
      [|reflexivity].
    apply app_eq_nil in E as [_ E]. discriminate. }
  rewrite Hpe in Hi2.
  pose proof (RecvRaw_turns T Unmarshal _ st _ _ _ _ _ Hf Ht1 Hi2) as H1.
  exists (set_reader s1 rd2). split; [exact H1|].
  split; [now apply (Recv_error T zeroT Unmarshal st _ [])|].
  simpl. repeat split. congruence.
Qed.

End Reader.

(** ** More of the earlier reader *)

Lemma asciiSpace_ascii (c : byte) :
  Legacy.asciiSpace c = true -> (Legacy.RuneSelf <=? Byte.to_N c)%N = false.
Proof. destruct c; intro H; try discriminate H; reflexivity. Qed.

Lemma reSpace_asciiSpace (c : byte) :
  Legacy.reSpace c = true -> Legacy.asciiSpace c = true.
Proof. destruct c; intro H; try discriminate H; reflexivity. Qed.

Lemma edgeByte_inv (c : byte) :
  edgeByte c = true ->
  (Legacy.RuneSelf <=? Byte.to_N c)%N = false /\ Legacy.asciiSpace c = false /\
  Legacy.reSpace c = false.
Proof.
  unfold edgeByte. intro H. apply andb_true_iff in H as [H1 H2].
  apply negb_true_iff in H2. apply N.ltb_lt in H1.
  split; [apply N.leb_gt; exact H1|]. split; [exact H2|].
  destruct (Legacy.reSpace c) eqn:E; [|reflexivity].
  apply reSpace_asciiSpace in E. congruence.
Qed.

Lemma scanSpace_spaces (w : bytes) (c : byte) (t : bytes) :
  forallb Legacy.asciiSpace w = true -> edgeByte c = true ->
  Legacy.scanSpace (w ++ c :: t) = (false, c :: t).
Proof.
  intros Hw Hc. apply edgeByte_inv in Hc as (H1 & H2 & _).
  induction w as [|b w IH]; simpl.
  - now rewrite H1, H2.
  - simpl in Hw. apply andb_true_iff in Hw as [Hb Hw].
    rewrite (asciiSpace_ascii b Hb), Hb. now apply IH.
Qed.

Lemma forallb_rev_eq (A : Type) (f : A -> bool) (l : list A) :
  forallb f (rev l) = forallb f l.
Proof.
  induction l as [|a l IH]; simpl; [reflexivity|].
  rewrite forallb_app, IH. simpl. rewrite andb_true_r. apply andb_comm.
Qed.

(** [TrimSpace] takes the ASCII white space off both ends of a slice whose
    inner part starts and ends with an ASCII byte that is no white space. *)
Lemma TrimSpace_between (trim : bytes -> bytes) (w1 w2 q : bytes) (c d : byte) (t u : bytes) :
  forallb Legacy.asciiSpace w1 = true ->
  forallb Legacy.asciiSpace w2 = true ->
  q = c :: t -> rev q = d :: u ->
  edgeByte c = true -> edgeByte d = true ->
  Legacy.TrimSpace trim (w1 ++ q ++ w2) = q.
Proof.
  intros H1 H2 Hq Hr Hc Hd. unfold Legacy.TrimSpace.
  rewrite Hq. change ((c :: t) ++ w2) with (c :: t ++ w2).
  rewrite (scanSpace_spaces w1 c (t ++ w2) H1 Hc).
  change (c :: t ++ w2) with ((c :: t) ++ w2). rewrite <- Hq.
  rewrite rev_app_distr, Hr.
  rewrite scanSpace_spaces; [| now rewrite forallb_rev_eq | exact Hd].
  now rewrite <- Hr, rev_involutive.
Qed.

Lemma eol_asciiSpace (k : nat) : forallb Legacy.asciiSpace (eol k) = true.
Proof. unfold eol. induction k; simpl; auto. Qed.

Lemma blankBytes_inv (ws : bytes) :
  blankBytes ws = true ->
  mem nl ws = false /\ forall p, Legacy.dropSpace (ws ++ p) = Legacy.dropSpace p.
Proof.
  induction ws as [|b ws IH]; simpl; intro H; [auto|].
  apply andb_true_iff in H as [Hb Hws]. apply andb_true_iff in Hb as [Hb Hn].
  destruct (IH Hws) as [I1 I2]. split.
  - rewrite I1, orb_false_r. apply negb_true_iff in Hn.
    destruct (Byte.eqb nl b) eqn:E; [|reflexivity].
    apply Byte.byte_dec_bl in E. subst. now rewrite byte_eqb_refl in Hn.
  - intro p. now rewrite Hb.
Qed.

Lemma tightPayload_inv (p : bytes) :
  tightPayload p = true ->
  exists c t d u, p = c :: t /\ rev p = d :: u /\
                  edgeByte c = true /\ edgeByte d = true /\ mem nl p = false.
Proof.
  unfold tightPayload. intro H.
  apply andb_true_iff in H as [H Hn]. apply andb_true_iff in H as [Hc Hd].
  apply negb_true_iff in Hn.
  destruct p as [|c t]; [discriminate|].
  destruct (rev (c :: t)) as [|d u] eqn:E; [discriminate|].
  exists c, t, d, u. auto.
Qed.

(** What the earlier reader sees in a data line: the trimmed line, that it
    is a data line, and its payload. *)
Lemma headerLine_trimmed (trim : bytes -> bytes) (ws p w2 : bytes) :
  blankBytes ws = true -> tightPayload p = true ->
  forallb Legacy.asciiSpace w2 = true ->
  Legacy.TrimSpace trim (headerLine ws p ++ w2) = headerLine ws p /\
  Legacy.headerData_Match (headerLine ws p) = true /\
  Legacy.headerData_ReplaceAll (headerLine ws p) = p /\
  Legacy.errorPrefix_Match (headerLine ws p) = HasPrefix p Legacy.lit_error_open.
Proof.
  intros Hws Hp Hw2.
  destruct (tightPayload_inv p Hp) as (c & t & d & u & Hpc & Hpr & Hc & Hd & _).
  destruct (blankBytes_inv ws Hws) as [_ Hdrop].
  assert (Hds : Legacy.dropSpace (ws ++ p) = p).
  { rewrite Hdrop, Hpc. simpl.
    now destruct (edgeByte_inv c Hc) as (_ & _ & ->). }
  split; [|split; [|split]].
  - apply (TrimSpace_between trim [] w2 (headerLine ws p) x64 d
             (skipn 1 Legacy.lit_header ++ ws ++ p)
             (u ++ rev ws ++ rev Legacy.lit_header)); auto.
    unfold headerLine. rewrite !rev_app_distr, Hpr, <- !app_assoc. reflexivity.
  - unfold Legacy.headerData_Match, headerLine. apply HasPrefix_app.
  - unfold Legacy.headerData_ReplaceAll, headerLine.
    now rewrite HasPrefix_app, skipn_length_app.
  - unfold Legacy.errorPrefix_Match, headerLine.
    now rewrite HasPrefix_app, skipn_length_app, Hds.
Qed.

Lemma headerLine_cut (ws p rest : bytes) (k : nat) :
  blankBytes ws = true -> tightPayload p = true ->
  cut_at nl ((headerLine ws p ++ eol k) ++ rest) = Some (headerLine ws p ++ eol k, rest) /\
  cut_at nl (headerLine ws p) = None.
Proof.
  intros Hws Hp.
  destruct (tightPayload_inv p Hp) as (_ & _ & _ & _ & _ & _ & _ & _ & Hn).
  destruct (blankBytes_inv ws Hws) as [Hw _].
  assert (Hm : mem nl (headerLine ws p) = false).
  { unfold headerLine. now rewrite !mem_app, Hw, Hn. }
  split.
  - unfold eol.
    replace ((headerLine ws p ++ repeat cr k ++ [nl]) ++ rest)
      with ((headerLine ws p ++ repeat cr k) ++ nl :: rest)
      by (repeat rewrite <- app_assoc; reflexivity).
    rewrite cut_at_app.
    + now rewrite <- app_assoc.
    + now rewrite mem_app, Hm, mem_nl_repeat_cr.
  - clear - Hm. induction (headerLine ws p) as [|b l IH]; simpl in *; [reflexivity|].
    apply orb_false_iff in Hm as [Hb Hl].
    assert (E : Byte.eqb b nl = false).
    { destruct (Byte.eqb b nl) eqn:E; [|reflexivity].
      apply Byte.byte_dec_bl in E. subst. now rewrite byte_eqb_refl in Hb. }
    now rewrite E, (IH Hl).
Qed.

Section LegacyReader.

Variable T : Type.
Variable zeroT : T.
Variable Unmarshal : forall k : target, bytes -> slot T k -> slot T k * option error.
Variable TrimFunc_IsSpace : bytes -> bytes.

Lemma legacy_iteration_Continue (s s' : streamReader) (c c' : N) (h h' : bool) :
  Legacy.iteration Unmarshal TrimFunc_IsSpace s c h = Legacy.Continue s' c' h' ->
  length (pending (reader s')) < length (pending (reader s)).
Proof.
  unfold Legacy.iteration.
  destruct (ReadBytes (reader s)) as [[rawLine readErr] rd] eqn:HR.
  intro H. destruct readErr as [e|].
  - crack H; discriminate.
  - apply ReadBytes_shorter in HR.
    crack H; try discriminate; injection H as <- _ _; exact HR.
Qed.

Lemma legacy_loop_returns (fuel : nat) (s : streamReader) (c : N) (h : bool) :
  length (pending (reader s)) < fuel ->
  exists r, Legacy.processLines_loop Unmarshal TrimFunc_IsSpace fuel s c h = Some r.
Proof.
  revert s c h; induction fuel as [|fuel IH]; intros s c h Hlen; [lia|].
  simpl. destruct (Legacy.iteration Unmarshal TrimFunc_IsSpace s c h)
    as [d e s'|s' c' h'] eqn:E.
  - eauto.
  - apply IH. apply legacy_iteration_Continue in E. lia.
Qed.

(** X12: every pull of the earlier reader returns: a turn of its loop that
    goes round again has taken a line off the pending bytes. *)
Theorem legacy_pull_returns (st : streamReader) :
  exists d e st', Legacy.RecvRaw Unmarshal TrimFunc_IsSpace st = Some (d, e, st').
Proof.
  unfold Legacy.RecvRaw. destruct (isFinished st); [eauto|].
  destruct (legacy_loop_returns (S (length (pending (reader st)))) st 0%N false)
    as [[[d e] st'] H]; [lia|].
  exists d, e, st'. exact H.
Qed.

(** The first turn of a pull of the earlier reader decides it when it
    returns. *)
Lemma legacy_first_turn (st s' : streamReader) (d : bytes) (e : option error) :
  isFinished st = false ->
  Legacy.iteration Unmarshal TrimFunc_IsSpace st 0%N false = Legacy.Return d e s' ->
  Legacy.RecvRaw Unmarshal TrimFunc_IsSpace st = Some (d, e, s').
Proof.
  intros Hf Hi. unfold Legacy.RecvRaw, Legacy.processLines. rewrite Hf.
  simpl. now rewrite Hi.
Qed.




(** X15: a whole data line whose payload starts with an error object makes
    the earlier reader put the payload into the error accumulator and read
    once more.  Whatever that read gives, short of a last line without
    newline, is dropped, and the pull returns the error decoded from the
    accumulator, wrapped; when the accumulator does not decode it returns
    no data with the error of that read, which is nil when a line was
    read. *)
Theorem legacy_error_prefixed_line
        (st : streamReader) (ws p rest raw2 : bytes) (k : nat)
        (readErr2 : option error) (rd2 : Reader) :
  isFinished st = false ->
  (1 <= emptyMessagesLimit st)%N ->
  blankBytes ws = true -> tightPayload p = true ->
  HasPrefix p Legacy.lit_error_open = true ->
  pending (reader st) = (headerLine ws p ++ eol k) ++ rest ->
  ReadBytes {| pending := rest; srcErr := srcErr (reader st);
               reads := S (reads (reader st)) |} = (raw2, readErr2, rd2) ->
  Legacy.isEOF readErr2 && Nat.ltb 0 (length raw2) = false ->
  let st' := set_reader (set_errAccumulator st (errAccumulator st ++ p)) rd2 in
  Legacy.RecvRaw Unmarshal TrimFunc_IsSpace st =
  Some ([],
        match unmarshalError Unmarshal st' with
        | Some respErr => Some (Wrapf "error, " (APIErrorPtr (Error respErr)))
        | None => readErr2
        end,
        st').
Proof.
  intros Hf Hlim Hws Hp He Hpend HR2 Hcase st'.
  destruct (headerLine_cut ws p rest k Hws Hp) as [Hcut _].
  destruct (headerLine_trimmed TrimFunc_IsSpace ws p (eol k) Hws Hp
                               (eol_asciiSpace k)) as (Ht & Hm & Hr & Hem).
  assert (Hi1 : Legacy.iteration Unmarshal TrimFunc_IsSpace st 0%N false =
                Legacy.Continue
                  (set_errAccumulator
                     (set_reader st {| pending := rest; srcErr := srcErr (reader st);
                                       reads := S (reads (reader st)) |})
                     (errAccumulator st ++ p))
                  1%N true).
  { unfold Legacy.iteration.
    rewrite (ReadBytes_line (reader st) _ rest) by (rewrite Hpend; exact Hcut).
    cbn [Legacy.isEOF Legacy.isErr andb orb].
    rewrite Ht, Hem, He, Hm, Hr. cbn [negb orb].
    change ((0 + 1) mod uint_max)%N with 1%N.
    cbn [emptyMessagesLimit set_errAccumulator set_reader].
    assert (Hl : (emptyMessagesLimit st <? 1)%N = false) by (apply N.ltb_ge; exact Hlim).
    now rewrite Hl. }
  match type of Hi1 with _ = Legacy.Continue ?x _ _ => set (s1 := x) in * end.
  assert (Hi2 : Legacy.iteration Unmarshal TrimFunc_IsSpace s1 1%N true =
                Legacy.Return []
                  (match unmarshalError Unmarshal st' with
                   | Some respErr => Some (Wrapf "error, " (APIErrorPtr (Error respErr)))
                   | None => readErr2
                   end) st').
  { unfold Legacy.iteration. change (reader s1) with
      {| pending := rest; srcErr := srcErr (reader st);
         reads := S (reads (reader st)) |}.
    rewrite HR2, Hcase. cbn [negb andb]. rewrite andb_false_r, orb_true_r.
    cbn [andb]. change (set_reader s1 rd2) with st'.
    now destruct (unmarshalError Unmarshal st'). }
  unfold Legacy.RecvRaw, Legacy.processLines. rewrite Hf, Hpend.
  destruct (length ((headerLine ws p ++ eol k) ++ rest)) as [|len] eqn:El.
  - apply length_zero_iff_nil in El. unfold headerLine in El. discriminate.
  - cbn [Legacy.processLines_loop]. now rewrite Hi1, Hi2.
Qed.

(** X16: when the source closes in the middle of a line that is not a data
    line while the error accumulator holds bytes, the earlier reader
    returns the error ["stream ended unexpectedly with partial data"] and
    leaves the stream unfinished. *)
Theorem legacy_partial_line_with_pending_error (st : streamReader) :
  isFinished st = false ->
  cut_at nl (pending (reader st)) = None ->
  pending (reader st) <> [] ->
  srcErr (reader st) = io_EOF ->
  errAccumulator st <> [] ->
  Legacy.headerData_Match
    (Legacy.TrimSpace TrimFunc_IsSpace (pending (reader st))) = false ->
  exists st',
    Legacy.RecvRaw Unmarshal TrimFunc_IsSpace st
      = Some ([], Some Legacy.errPartialData, st') /\
    Legacy.Recv Unmarshal TrimFunc_IsSpace zeroT st
      = Some (zeroT, Some Legacy.errPartialData, st') /\
    isFinished st' = false /\ pending (reader st') = [] /\
    errAccumulator st' = errAccumulator st.
Proof.
  intros Hf Hcut Hne Hsrc Hacc Hm.
  assert (HR : ReadBytes (reader st) =
               (pending (reader st), Some io_EOF,
                {| pending := []; srcErr := srcErr (reader st);
                   reads := S (reads (reader st)) |})).
  { unfold ReadBytes. now rewrite Hcut, Hsrc. }
  pose proof (legacy_partial_data_error T Unmarshal TrimFunc_IsSpace st 0%N false
                _ _ HR Hne (or_introl Hm) Hacc) as Hi.
  pose proof (legacy_first_turn st _ _ _ Hf Hi) as H1.
  eexists. split; [exact H1|]. split.
  - unfold Legacy.Recv. now rewrite H1.
  - simpl. auto.
Qed.

(** X17: the two readers differ on a data line that the close of the source
    cuts before its newline: the earlier reader returns its payload as a
    frame, the current one does not look at the line and returns [io.EOF],
    finishing the stream. *)
Theorem cut_data_line_earlier_and_current
        (st : streamReader) (ws p : bytes) :
  isFinished st = false ->
  buffer_Bytes st = [] ->
  srcErr (reader st) = io_EOF ->
  blankBytes ws = true -> tightPayload p = true ->
  p <> lit_DONE ->
  pending (reader st) = headerLine ws p ->
  exists st1 st2,
    Legacy.RecvRaw Unmarshal TrimFunc_IsSpace st = Some (p, None, st1) /\
    isFinished st1 = false /\
    RecvRaw Unmarshal st = Some ([], Some io_EOF, st2) /\
    isFinished st2 = true /\ IsComplete st2 = IsComplete st.
Proof.
  intros Hf Hb Hsrc Hws Hp Hnd Hpend.
  destruct (headerLine_cut ws p [] 0 Hws Hp) as [_ Hcut].
  destruct (headerLine_trimmed TrimFunc_IsSpace ws p [] Hws Hp eq_refl)
    as (Ht & Hm & Hr & _).
  rewrite app_nil_r in Ht.
  set (rd := {| pending := []; srcErr := srcErr (reader st);
                reads := S (reads (reader st)) |}).
  assert (HR : ReadBytes (reader st) = (headerLine ws p, Some io_EOF, rd)).
  { unfold ReadBytes, rd. now rewrite Hpend, Hcut, Hsrc. }
  assert (Hi : Legacy.iteration Unmarshal TrimFunc_IsSpace st 0%N false =
               Legacy.Return p None (set_reader st rd)).
  { unfold Legacy.iteration. rewrite HR.
    assert (Hlen : Nat.ltb 0 (length (headerLine ws p)) = true) by reflexivity.
    cbn [Legacy.isEOF]. rewrite Hlen. cbn [andb].
    apply bytes_eqb_neq in Hnd. now rewrite Ht, Hm, Hr, Hnd. }
  exists (set_reader st rd). eexists.
  split; [exact (legacy_first_turn st _ _ _ Hf Hi)|]. split; [exact Hf|].
  assert (HR' : ReadBytes (reader (prepare st)) = (headerLine ws p, Some io_EOF, rd))
    by (rewrite prepare_reader; exact HR).
  pose proof (iteration_eof T Unmarshal (prepare st) 0%N _ _ HR') as Hi'.
  destruct (prepare_flags st) as (_ & P2 & _ & _ & P5).
  rewrite P5, Hb in Hi'. simpl in Hi'.
  assert (Ht0 : turns Unmarshal 0 (prepare st) 0%N = Some (prepare st, 0%N))
    by reflexivity.
  split; [exact (RecvRaw_turns T Unmarshal 0 st _ _ _ _ _ Hf Ht0 Hi')|].
  split; [reflexivity|]. unfold IsComplete. simpl. exact P2.
Qed.

(** X18: a terminal line that the close of the source cuts before its
    newline finishes the stream in both readers without marking it
    complete: [IsComplete] stays as it was. *)
Theorem cut_done_line_is_not_completion (st : streamReader) (ws : bytes) :
  isFinished st = false ->
  buffer_Bytes st = [] ->
  errAccumulator st = [] ->
  srcErr (reader st) = io_EOF ->
  blankBytes ws = true ->
  pending (reader st) = headerLine ws lit_DONE ->
  exists st1 st2,
    Legacy.RecvRaw Unmarshal TrimFunc_IsSpace st = Some ([], Some io_EOF, st1) /\
    isFinished st1 = true /\ IsComplete st1 = IsComplete st /\
    RecvRaw Unmarshal st = Some ([], Some io_EOF, st2) /\
    isFinished st2 = true /\ IsComplete st2 = IsComplete st.
Proof.
  intros Hf Hb Hacc Hsrc Hws Hpend.
  destruct (headerLine_cut ws lit_DONE [] 0 Hws eq_refl) as [_ Hcut].
  destruct (headerLine_trimmed TrimFunc_IsSpace ws lit_DONE [] Hws eq_refl eq_refl)
    as (Ht & Hm & Hr & _).
  rewrite app_nil_r in Ht.
  set (rd := {| pending := []; srcErr := srcErr (reader st);
                reads := S (reads (reader st)) |}).
  assert (HR : ReadBytes (reader st) = (headerLine ws lit_DONE, Some io_EOF, rd)).
  { unfold ReadBytes, rd. now rewrite Hpend, Hcut, Hsrc. }
  assert (Hi : Legacy.iteration Unmarshal TrimFunc_IsSpace st 0%N false =
               Legacy.Return [] (Some io_EOF) (set_isFinished (set_reader st rd) true)).
  { unfold Legacy.iteration. rewrite HR.
    assert (Hlen : Nat.ltb 0 (length (headerLine ws lit_DONE)) = true) by reflexivity.
    cbn [Legacy.isEOF]. rewrite Hlen. cbn [andb].
    rewrite Ht, Hm, Hr, bytes_eqb_refl. cbn [negb andb].
    cbn [errAccumulator set_reader]. now rewrite Hacc. }
  eexists. eexists.
  split; [exact (legacy_first_turn st _ _ _ Hf Hi)|].
  split; [reflexivity|]. split; [reflexivity|].
  assert (HR' : ReadBytes (reader (prepare st)) =
                (headerLine ws lit_DONE, Some io_EOF, rd))
    by (rewrite prepare_reader; exact HR).
  pose proof (iteration_eof T Unmarshal (prepare st) 0%N _ _ HR') as Hi'.
  destruct (prepare_flags st) as (_ & P2 & _ & _ & P5).
  rewrite P5, Hb in Hi'. simpl in Hi'.
  assert (Ht0 : turns Unmarshal 0 (prepare st) 0%N = Some (prepare st, 0%N))
    by reflexivity.
  split; [exact (RecvRaw_turns T Unmarshal 0 st _ _ _ _ _ Hf Ht0 Hi')|].
  split; [reflexivity|]. unfold IsComplete. simpl. exact P2.
Qed.

End LegacyReader.

(** ** The client configuration *)

Lemma removeDotsAndColons_spec (model : string) (c : Ascii.ascii) :
  In c (list_ascii_of_string (Config.removeDotsAndColons model)) <->
  In c (list_ascii_of_string model) /\
  c <> Config.dot /\ c <> Config.colon.
Proof.
  induction model as [|a model IH]; simpl.
  - tauto.
  - destruct (Ascii.eqb a (Config.dot)) eqn:E1;
      [|destruct (Ascii.eqb a (Config.colon)) eqn:E2]; simpl.
    + apply Ascii.eqb_eq in E1. rewrite IH. split.
      * intros (H1 & H2 & H3). auto.
      * intros ([H1 | H1] & H2 & H3); [congruence | auto].
    + apply Ascii.eqb_eq in E2. rewrite IH. split.
      * intros (H1 & H2 & H3). auto.
      * intros ([H1 | H1] & H2 & H3); [congruence | auto].
    + apply Ascii.eqb_neq in E1, E2. rewrite IH. split.
      * intros [H | (H1 & H2 & H3)]; [subst; auto | auto].
      * intros ([H1 | H1] & H2 & H3); auto.
Qed.

Lemma removeDotsAndColons_filter (model : string) :
  list_ascii_of_string (Config.removeDotsAndColons model) =
  filter (fun c => negb (Ascii.eqb c Config.dot || Ascii.eqb c Config.colon))
         (list_ascii_of_string model).
Proof.
  induction model as [|a model IH]; simpl; [reflexivity|].
  destruct (Ascii.eqb a Config.dot || Ascii.eqb a Config.colon); simpl;
    now rewrite IH.
Qed.

Lemma removeDotsAndColons_app (a b : string) :
  Config.removeDotsAndColons (a ++ b) =
  (Config.removeDotsAndColons a ++ Config.removeDotsAndColons b)%string.
Proof.
  induction a as [|x a IH]; simpl; [reflexivity|].
  destruct (Ascii.eqb x Config.dot || Ascii.eqb x Config.colon); simpl;
    now rewrite IH.
Qed.

Lemma removeDotsAndColons_clean (model : string) :
  (forall c, In c (list_ascii_of_string model) ->
             c <> Config.dot /\ c <> Config.colon) ->
  Config.removeDotsAndColons model = model.
Proof.
  induction model as [|a model IH]; simpl; intro H; [reflexivity|].
  destruct (H a (or_introl eq_refl)) as [H1 H2].
  apply Ascii.eqb_neq in H1, H2. rewrite H1, H2. simpl.
  f_equal. apply IH. intros c Hc. apply H. now right.
Qed.

Lemma removeDotsAndColons_length (model : string) :
  String.length (Config.removeDotsAndColons model) <= String.length model.
Proof.
  induction model as [|a model IH]; simpl; [lia|].
  destruct (Ascii.eqb a (Config.dot) || Ascii.eqb a (Config.colon));
    simpl; lia.
Qed.

Section ClientConfig.

Variable HTTPDoer : Type.
Variable defaultHTTPClient : HTTPDoer.

(** X19: the deployment name that the default Azure configuration gives for
    a model is the model name with every dot and every colon taken out and
    nothing else changed: its characters are those of the model name that
    are neither, in their order and as often as they occur.  So the name of
    two names put together is the two deployment names put together, the
    name has neither character and keeps every other, is not longer, is
    the model name itself when that has neither, and is mapped to itself. *)
Theorem azure_deployment_name_has_no_dots_or_colons
        (apiKey baseURL model other : string) :
  let cfg := Config.DefaultAzureConfig HTTPDoer defaultHTTPClient apiKey baseURL in
  let deployment := Config.GetAzureDeploymentByModel HTTPDoer cfg in
  let name := deployment model in
  list_ascii_of_string name =
    filter (fun c => negb (Ascii.eqb c Config.dot || Ascii.eqb c Config.colon))
           (list_ascii_of_string model) /\
  deployment (model ++ other)%string = (name ++ deployment other)%string /\
  (forall c, In c (list_ascii_of_string name) <->
             In c (list_ascii_of_string model) /\
             c <> Config.dot /\ c <> Config.colon) /\
  String.length name <= String.length model /\
  ((forall c, In c (list_ascii_of_string model) ->
              c <> Config.dot /\ c <> Config.colon) ->
   name = model) /\
  deployment name = name.
Proof.
  cbn. split; [apply removeDotsAndColons_filter|].
  split; [apply removeDotsAndColons_app|].
  split; [apply removeDotsAndColons_spec|].
  split; [apply removeDotsAndColons_length|].
  split; [apply removeDotsAndColons_clean|].
  apply removeDotsAndColons_clean. intros c Hc.
  now apply removeDotsAndColons_spec in Hc.
Qed.

End ClientConfig.

(** ** More theorems at concrete streams *)

Lemma frame_is_never_empty_witness :
  exists st',
    RecvRaw demoUnmarshal demoFrameThenClose = Some (B "{a}", None, st') /\
    B "{a}" <> [] /\ dataBuffer st' = Some [] /\
    isFinished st' = false /\ receivedDone st' = receivedDone demoFrameThenClose.
Proof.
  eexists. split; [reflexivity|].
  eapply (frame_is_never_empty bytes demoUnmarshal demoFrameThenClose).
  reflexivity.
Defined.

Lemma inert_lines_are_skipped_witness :
  let ls := [dataLine [] 0; B "event: x" ++ [nl]; B "data:{a}" ++ [nl]] in
  let rest := eol 0 ++ B "more" in
  let st := newStream 1 (eol 1 ++ concat ls ++ rest) io_EOF in
  let s := withPending (addReads (prepare st) 1) (concat ls ++ rest) in
  isFinished st = false /\
  turns demoUnmarshal 1 (prepare st) 0%N = Some (s, 1%N) /\
  forallb inertLine ls = true /\
  turns demoUnmarshal 4 (prepare st) 0%N
    = Some (addReads (withPending s rest) 3, 1%N) /\
  exists st',
    processLines_loop demoUnmarshal (S (length rest)) (withPending s rest) 1%N
      = Some ([], Some ErrTooManyEmptyStreamMessages, st') /\
    RecvRaw demoUnmarshal st
      = Some ([], Some ErrTooManyEmptyStreamMessages, addReads st' 3).
Proof.
  intros ls rest st s. split; [reflexivity|]. split; [reflexivity|].
  split; [reflexivity|].
  destruct (inert_lines_are_skipped bytes demoUnmarshal st s 1 1%N ls rest
              eq_refl eq_refl eq_refl eq_refl) as (H1 & d & e & st' & H2 & H3).
  split; [exact H1|].
  exists st'.
  assert (Hd : (d, e) = ([], Some ErrTooManyEmptyStreamMessages)).
  { vm_compute in H2. now injection H2 as <- <- _. }
  injection Hd as -> ->. split; assumption.
Defined.

Lemma recv_decodes_each_frame_witness :
  let st := newStream 1 (concat (map eventBytes demoEvents)
                           ++ dataLine lit_done 0 ++ []) io_EOF in
  isFinished st = false /\
  buffer_Bytes st = [] /\
  pendingError demoUnmarshal st = None /\
  forallb (event_ok (emptyMessagesLimit st)) demoEvents = true /\
  exists st',
    recvs [] demoUnmarshal 3 st =
      Some ([(B "{a}", None); (B "{b}", None); ([], Some io_EOF)], st') /\
    IsComplete st' = true /\ isFinished st' = true /\
    pending (reader st') = [].
Proof.
  intro st. split; [reflexivity|]. split; [reflexivity|]. split; [reflexivity|].
  split; [reflexivity|].
  apply (recv_decodes_each_frame bytes [] demoUnmarshal st demoEvents lit_done [] 0);
    try reflexivity.
  right. reflexivity.
Defined.

Lemma read_error_leaves_stream_unfinished_witness :
  let st := newStream defaultEmptyMessagesLimit (dataLine (B "{a}") 0)
                      io_ErrUnexpectedEOF in
  let s := set_dataBuffer
             (set_reader st {| pending := []; srcErr := io_ErrUnexpectedEOF;
                               reads := 1 |})
             (Some (B "{a}")) in
  let rd := {| pending := []; srcErr := io_ErrUnexpectedEOF; reads := 2 |} in
  isFinished st = false /\
  turns demoUnmarshal 1 (prepare st) 0%N = Some (s, 0%N) /\
  ReadBytes (reader s) = ([], Some io_ErrUnexpectedEOF, rd) /\
  exists st',
    RecvRaw demoUnmarshal st = Some ([], Some io_ErrUnexpectedEOF, st') /\
    Recv [] demoUnmarshal st = Some ([], Some io_EOF, st') /\
    isFinished st' = false /\
    receivedDone st' = receivedDone st /\
    dataBuffer st' = Some (B "{a}") /\
    errAccumulator st' = [].
Proof.
  intros st s rd.
  split; [reflexivity|]. split; [reflexivity|]. split; [reflexivity|].
  destruct (read_error_leaves_stream_unfinished bytes [] demoUnmarshal st s 1 0%N
              [] io_ErrUnexpectedEOF rd eq_refl eq_refl eq_refl)
    as (st' & H1 & H2 & H3 & H4 & H5 & H6); [discriminate|].
  exists st'. repeat split; assumption.
Defined.

Lemma complete_implies_finished_witness :
  exists rs st',
    pulls demoUnmarshal 2 demoFrameThenDone = Some (rs, st') /\
    (receivedDone demoFrameThenDone = true -> isFinished demoFrameThenDone = true) /\
    IsComplete st' = true /\
    (IsComplete st' = true -> isFinished st' = true).
Proof.
  do 2 eexists. split; [reflexivity|]. split; [discriminate|].
  split; [reflexivity|].
  eapply (complete_implies_finished bytes demoUnmarshal 2 demoFrameThenDone).
  - reflexivity.
  - discriminate.
Defined.

Lemma error_accumulator_only_grows_witness :
  exists rs st',
    pulls demoUnmarshal 2 demoErrorEvent = Some (rs, st') /\
    emptyMessagesLimit st' = emptyMessagesLimit demoErrorEvent /\
    exists added, errAccumulator st' = errAccumulator demoErrorEvent ++ added.
Proof.
  do 2 eexists. split; [reflexivity|].
  eapply (error_accumulator_only_grows bytes demoUnmarshal 2 demoErrorEvent).
  reflexivity.
Defined.

Lemma pending_error_is_returned_again_witness :
  let st := set_errAccumulator (demoStream (blanks [0; 1] ++ [])) demoBadKey in
  let err := APIErrorPtr (Some demoBadKeyError) in
  isFinished st = false /\
  pendingError demoUnmarshal st = Some {| Error := Some demoBadKeyError |} /\
  exists st',
    pulls demoUnmarshal 2 st = Some ([([], Some err); ([], Some err)], st') /\
    pending (reader st') = [] /\
    buffer_Bytes st' = buffer_Bytes st /\
    errAccumulator st' = errAccumulator st /\
    isFinished st' = false.
Proof.
  intros st err. split; [reflexivity|]. split; [reflexivity|].
  apply (pending_error_is_returned_again bytes demoUnmarshal st
           {| Error := Some demoBadKeyError |} [0; 1] []); reflexivity.
Defined.

Lemma done_line_drops_buffered_data_witness :
  let st := demoStream (dataLines [(B "{a}", 0)] ++ dataLine lit_DONE 0 ++ []) in
  isFinished st = false /\
  turns demoUnmarshal 0 (prepare st) 0%N = Some (prepare st, 0%N) /\
  dataBuffer (prepare st) = Some [] /\
  exists final,
    RecvRaw demoUnmarshal st = Some ([], Some io_EOF, final) /\
    IsComplete final = true /\ isFinished final = true /\
    buffer_Bytes final = B "{a}" /\
    pending (reader final) = [] /\
    forall m, pulls demoUnmarshal m final = Some (repeat ([], Some io_EOF) m, final).
Proof.
  intro st. split; [reflexivity|]. split; [reflexivity|]. split; [reflexivity|].
  apply (done_line_drops_buffered_data bytes demoUnmarshal st (prepare st) 0 0%N
           [(B "{a}", 0)] lit_DONE [] 0); try reflexivity.
  left. reflexivity.
Defined.

Lemma too_many_only_past_the_limit_witness :
  exists st',
    RecvRaw demoUnmarshal demoBlanks
      = Some ([], Some ErrTooManyEmptyStreamMessages, st') /\
    srcErr (reader demoBlanks) <> ErrTooManyEmptyStreamMessages /\
    (emptyMessagesLimit demoBlanks <
     N.of_nat (reads (reader st') - reads (reader demoBlanks)))%N.
Proof.
  eexists. split; [reflexivity|]. split; [discriminate|].
  eapply (too_many_only_past_the_limit bytes demoUnmarshal demoBlanks).
  - reflexivity.
  - discriminate.
Defined.

Lemma raw_error_line_surfaces_at_boundary_witness :
  let l := demoBadKey ++ [cr; nl] in
  let st := demoStream (l ++ eol 0 ++ []) in
  isFinished st = false /\
  turns demoUnmarshalJSON 0 (prepare st) 0%N = Some (prepare st, 0%N) /\
  rawErrorLine l = true /\
  exists st',
    RecvRaw demoUnmarshalJSON st
      = Some ([], Some (APIErrorPtr (Some demoBadKeyError)), st') /\
    Recv [] demoUnmarshalJSON st
      = Some ([], Some (APIErrorPtr (Some demoBadKeyError)), st') /\
    errAccumulator st' = demoBadKey ++ [nl] /\
    pending (reader st') = [] /\
    isFinished st' = false.
Proof.
  intros l st. split; [reflexivity|]. split; [reflexivity|]. split; [reflexivity|].
  apply (raw_error_line_surfaces_at_boundary bytes [] demoUnmarshalJSON st
           (prepare st) 0 0%N l [] 0 {| Error := Some demoBadKeyError |});
    reflexivity.
Defined.



Lemma legacy_error_prefixed_line_witness :
  let st := demoStream ((headerLine [x20] demoBadKey ++ eol 0) ++ B "next" ++ [nl]) in
  isFinished st = false /\
  (1 <= emptyMessagesLimit st)%N /\
  blankBytes [x20] = true /\ tightPayload demoBadKey = true /\
  HasPrefix demoBadKey Legacy.lit_error_open = true /\
  exists st',
    Legacy.RecvRaw demoUnmarshal (fun b => b) st =
      Some ([], Some (Wrapf "error, " (APIErrorPtr (Some demoBadKeyError))), st') /\
    pending (reader st') = [] /\
    errAccumulator st' = demoBadKey.
Proof.
  intro st. split; [reflexivity|]. split; [vm_compute; discriminate|].
  split; [reflexivity|]. split; [reflexivity|]. split; [reflexivity|].
  eexists. split.
  - apply (legacy_error_prefixed_line bytes demoUnmarshal (fun b => b) st
             [x20] demoBadKey (B "next" ++ [nl]) (B "next" ++ [nl]) 0 None
             {| pending := []; srcErr := io_EOF; reads := 2 |});
      try reflexivity.
    vm_compute. discriminate.
  - split; reflexivity.
Defined.

Lemma legacy_partial_line_with_pending_error_witness :
  let st := set_errAccumulator (demoStream (B "tail")) (B "junk") in
  isFinished st = false /\
  cut_at nl (pending (reader st)) = None /\
  pending (reader st) <> [] /\
  srcErr (reader st) = io_EOF /\
  errAccumulator st <> [] /\
  Legacy.headerData_Match (Legacy.TrimSpace (fun b => b) (pending (reader st))) = false /\
  exists st',
    Legacy.RecvRaw demoUnmarshal (fun b => b) st
      = Some ([], Some Legacy.errPartialData, st') /\
    Legacy.Recv demoUnmarshal (fun b => b) [] st
      = Some ([], Some Legacy.errPartialData, st') /\
    isFinished st' = false /\ pending (reader st') = [] /\
    errAccumulator st' = errAccumulator st.
Proof.
  intro st. split; [reflexivity|]. split; [reflexivity|]. split; [discriminate|].
  split; [reflexivity|]. split; [discriminate|]. split; [reflexivity|].
  apply (legacy_partial_line_with_pending_error bytes [] demoUnmarshal (fun b => b) st);
    try reflexivity; discriminate.
Defined.

Lemma cut_data_line_earlier_and_current_witness :
  isFinished demoCutDataLine = false /\
  buffer_Bytes demoCutDataLine = [] /\
  srcErr (reader demoCutDataLine) = io_EOF /\
  pending (reader demoCutDataLine) = headerLine [x20] (B "{a}") /\
  exists st1 st2,
    Legacy.RecvRaw demoUnmarshal (fun b => b) demoCutDataLine
      = Some (B "{a}", None, st1) /\
    isFinished st1 = false /\
    RecvRaw demoUnmarshal demoCutDataLine = Some ([], Some io_EOF, st2) /\
    isFinished st2 = true /\ IsComplete st2 = IsComplete demoCutDataLine.
Proof.
  split; [reflexivity|]. split; [reflexivity|]. split; [reflexivity|].
  split; [reflexivity|].
  apply (cut_data_line_earlier_and_current bytes demoUnmarshal (fun b => b)
           demoCutDataLine [x20] (B "{a}")); try reflexivity.
  discriminate.
Defined.

Lemma cut_done_line_is_not_completion_witness :
  let st := demoStream (headerLine [x20] lit_DONE) in
  isFinished st = false /\ buffer_Bytes st = [] /\ errAccumulator st = [] /\
  srcErr (reader st) = io_EOF /\ blankBytes [x20] = true /\
  exists st1 st2,
    Legacy.RecvRaw demoUnmarshal (fun b => b) st = Some ([], Some io_EOF, st1) /\
    isFinished st1 = true /\ IsComplete st1 = false /\
    RecvRaw demoUnmarshal st = Some ([], Some io_EOF, st2) /\
    isFinished st2 = true /\ IsComplete st2 = false.
Proof.
  intro st. split; [reflexivity|]. split; [reflexivity|]. split; [reflexivity|].
  split; [reflexivity|]. split; [reflexivity|].
  apply (cut_done_line_is_not_completion bytes demoUnmarshal (fun b => b) st [x20]);
    reflexivity.
Defined.
